(** * Drought-risk inference core of [app.py]

    A shallow embedding of the Streamlit application's inference core
    ([get_rgb_image], [predict_geotiff]), of the derived views computed in
    [plot_predictions] (risk statistics and threshold overlay) and of the two
    exports of [main] (CSV and GeoTIFF).

    Conventions of the embedding:
    - numpy arrays are nested lists in row-major order; array values are
      [sample]s, extended reals with the IEEE specials the code tests for
      ([np.isnan], [np.isinf], [np.nanmin]).  Rounding is not modelled.
    - the opened rasterio dataset is a record giving its shape and an accessor
      for the sample at (band, row, column), bands counted from 0 as in the
      array returned by [src.read(window=...)].
    - Streamlit calls ([st.error], the progress bar and text) are events
      appended to a log that is threaded through the functions.
    - the pickled scaler and classifier are parameters. *)

From Stdlib Require Import List Arith Bool Lia PeanoNat.
From Stdlib Require Import Reals Lra.
From Stdlib Require Import Strings.Byte.
From Stdlib Require Strings.String.
Import ListNotations.
Import String.StringSyntax.
Delimit Scope string_scope with string.


(* ------------------------------------------------------------------------- *)
(** ** Index-built lists *)
(* ------------------------------------------------------------------------- *)

(** [[f 0; f 1; ...; f (n-1)]] *)
Definition tabulate {A : Type} (n : nat) (f : nat -> A) : list A :=
  map f (seq 0 n).

(** an [h] by [w] grid given by its entries *)
Definition tabulate2 {A : Type} (h w : nat) (f : nat -> nat -> A) : list (list A) :=
  tabulate h (fun r => tabulate w (f r)).

(** [m[r][c]], when in range *)
Definition get2 {A : Type} (m : list (list A)) (r c : nat) : option A :=
  match nth_error m r with
  | Some row => nth_error row c
  | None => None
  end.

(** a grid with [h] rows, all of length [w] *)
Definition has_shape {A : Type} (h w : nat) (m : list (list A)) : Prop :=
  length m = h /\ Forall (fun row => length row = w) m.

(* ------------------------------------------------------------------------- *)
(** ** Window enumeration ([predict_geotiff], the two [for] loops) *)
(* ------------------------------------------------------------------------- *)

(** Python's [range(start, stop, step)] for a positive step: its length is
    computed first, then the elements are [start + i*step].  ([step = 0] is
    rejected by Python; the driver fails earlier in that case, see
    [predict_geotiff].) *)
Definition py_range (start stop step : nat) : list nat :=
  map (fun i => start + i * step) (seq 0 ((stop - start + step - 1) / step)).

(** [rasterio.windows.Window(col_off, row_off, width, height)] *)
Record Window := mkWindow {
  col_off : nat;
  row_off : nat;
  win_width : nat;
  win_height : nat
}.

(** The window built in the loop body for origin [(x, y)]. *)
Definition chunk_window (height width chunk_size x y : nat) : Window :=
  mkWindow x y (Nat.min chunk_size (width - x)) (Nat.min chunk_size (height - y)).

(** All windows in the order the nested loops visit them. *)
Definition windows (height width chunk_size : nat) : list Window :=
  flat_map
    (fun y => map (fun x => chunk_window height width chunk_size x y)
                  (py_range 0 width chunk_size))
    (py_range 0 height chunk_size).

(** [total_chunks] as computed before the loops. *)
Definition total_chunks (height width chunk_size : nat) : nat :=
  ((height + chunk_size - 1) / chunk_size) * ((width + chunk_size - 1) / chunk_size).

(** Pixel [(r, c)] lies in the window. *)
Definition in_window (win : Window) (r c : nat) : bool :=
  (row_off win <=? r) && (r <? row_off win + win_height win) &&
  ((col_off win <=? c) && (c <? col_off win + win_width win)).

(* ------------------------------------------------------------------------- *)
(** ** Array values *)
(* ------------------------------------------------------------------------- *)

(** A value stored in a numpy array: a real number or one of the IEEE
    specials.  Signed zeros and rounding are not modelled. *)
Inductive sample : Type :=
| Fin (x : R)
| PInf
| NInf
| NaN.

Definition Array2 := list (list sample).
Definition Array3 := list (list (list sample)).

Definition Rlt_bool (x y : R) : bool := if Rlt_dec x y then true else false.
Definition Rle_bool (x y : R) : bool := if Rle_dec x y then true else false.
Definition Req_bool (x y : R) : bool := if Req_dec_T x y then true else false.

(** [np.isnan], [np.isinf] *)
Definition isnan (s : sample) : bool :=
  match s with NaN => true | _ => false end.

Definition isinf (s : sample) : bool :=
  match s with PInf | NInf => true | _ => false end.

Definition is_finite (s : sample) : bool :=
  match s with Fin _ => true | _ => false end.

(** the infinity obtained from a finite factor of the given sign
    ([inf * 0] is NaN) *)
Definition inf_of_sign (x : R) : sample :=
  if Rlt_bool 0 x then PInf else if Rlt_bool x 0 then NInf else NaN.

Definition sample_opp (a : sample) : sample :=
  match a with
  | Fin x => Fin (- x)
  | PInf => NInf
  | NInf => PInf
  | NaN => NaN
  end.

Definition sample_add (a b : sample) : sample :=
  match a, b with
  | NaN, _ | _, NaN => NaN
  | Fin x, Fin y => Fin (x + y)
  | PInf, NInf | NInf, PInf => NaN
  | PInf, _ | _, PInf => PInf
  | NInf, _ | _, NInf => NInf
  end.

Definition sample_sub (a b : sample) : sample := sample_add a (sample_opp b).

Definition sample_mul (a b : sample) : sample :=
  match a, b with
  | NaN, _ | _, NaN => NaN
  | Fin x, Fin y => Fin (x * y)
  | Fin x, PInf | PInf, Fin x => inf_of_sign x
  | Fin x, NInf | NInf, Fin x => inf_of_sign (- x)
  | PInf, PInf | NInf, NInf => PInf
  | PInf, NInf | NInf, PInf => NInf
  end.

Definition sample_div (a b : sample) : sample :=
  match a, b with
  | NaN, _ | _, NaN => NaN
  | Fin x, Fin y => if Req_bool y 0 then inf_of_sign x else Fin (x / y)
  | Fin _, PInf | Fin _, NInf => Fin 0
  | PInf, Fin y => if Rlt_bool y 0 then NInf else PInf
  | NInf, Fin y => if Rlt_bool y 0 then PInf else NInf
  | PInf, PInf | PInf, NInf | NInf, PInf | NInf, NInf => NaN
  end.

(** [np.exp] *)
Definition sample_exp (a : sample) : sample :=
  match a with
  | Fin x => Fin (exp x)
  | PInf => PInf
  | NInf => Fin 0
  | NaN => NaN
  end.

(** [a < b]; every comparison with NaN is false *)
Definition sample_ltb (a b : sample) : bool :=
  match a, b with
  | NaN, _ | _, NaN => false
  | Fin x, Fin y => Rlt_bool x y
  | NInf, NInf => false
  | NInf, _ => true
  | _, NInf => false
  | PInf, _ => false
  | Fin _, PInf => true
  end.

(** [a <= b] *)
Definition sample_leb (a b : sample) : bool :=
  match a, b with
  | NaN, _ | _, NaN => false
  | Fin x, Fin y => Rle_bool x y
  | NInf, _ => true
  | _, PInf => true
  | _, NInf => false
  | PInf, _ => false
  end.

Definition sample_gtb (a b : sample) : bool := sample_ltb b a.
Definition sample_geb (a b : sample) : bool := sample_leb b a.

(** [np.fmin] and [np.fmax]: the NaN-ignoring minimum and maximum *)
Definition fmin (a b : sample) : sample :=
  match a, b with
  | NaN, _ => b
  | _, NaN => a
  | _, _ => if sample_ltb b a then b else a
  end.

Definition fmax (a b : sample) : sample :=
  match a, b with
  | NaN, _ => b
  | _, NaN => a
  | _, _ => if sample_ltb a b then b else a
  end.

(** [np.nanmin] and [np.nanmax] over all the entries of an array, given
    flattened: the reduction of [fmin] ([fmax]); NaN when every entry is NaN
    (numpy warns), an exception ([None]) on an empty array. *)
Definition nanmin (flat : list sample) : option sample :=
  match flat with
  | [] => None
  | x :: rest => Some (fold_left fmin rest x)
  end.

Definition nanmax (flat : list sample) : option sample :=
  match flat with
  | [] => None
  | x :: rest => Some (fold_left fmax rest x)
  end.

(** row-major flattening of a 3-D array *)
Definition flatten3 (a : Array3) : list sample := concat (map (@concat sample) a).

(** the value lies in the closed unit interval *)
Definition in_unit (s : sample) : Prop :=
  match s with
  | Fin x => (0 <= x <= 1)%R
  | _ => False
  end.

(** [1 / (1 + np.exp(-d))] *)
Definition logistic (d : sample) : sample :=
  sample_div (Fin 1) (sample_add (Fin 1) (sample_exp (sample_opp d))).

(* ------------------------------------------------------------------------- *)
(** ** The opened raster *)
(* ------------------------------------------------------------------------- *)

Inductive dtype : Type := uint8 | int16 | uint16 | int32 | float32 | float64.

(** [src.meta] *)
Record Meta := mkMeta {
  meta_dtype : dtype;
  meta_height : nat;
  meta_width : nat;
  meta_count : nat;
  meta_crs : nat;
  meta_transform : list R
}.

(** The dataset returned by [memfile.open()].  [sample_at b r c] is the sample
    of band [b + 1] at row [r] and column [c]. *)
Record Raster := mkRaster {
  height : nat;
  width : nat;
  count : nat;
  dtypes : dtype;
  crs : nat;
  transform : list R;
  sample_at : nat -> nat -> nat -> sample
}.

Definition meta (src : Raster) : Meta :=
  mkMeta (dtypes src) (height src) (width src) (count src) (crs src) (transform src).

(** [src.read(k)]: the whole band [k], counted from 1; an out-of-range index
    raises. *)
Definition read_band (src : Raster) (k : nat) : option Array2 :=
  if (1 <=? k) && (k <=? count src)
  then Some (tabulate2 (height src) (width src) (sample_at src (k - 1)))
  else None.

(** [src.read(window=window)]: every band, restricted to the window. *)
Definition read_window (src : Raster) (window : Window) : Array3 :=
  tabulate (count src)
    (fun b => tabulate2 (win_height window) (win_width window)
                (fun i j => sample_at src b (row_off window + i) (col_off window + j))).

(* ------------------------------------------------------------------------- *)
(** ** Scaler and classifier *)
(* ------------------------------------------------------------------------- *)

(** A 2-D array together with the attributes the code relies on: its dtype
    and its number of columns. *)
Record Matrix := mkMatrix {
  mat_dtype : dtype;
  mat_cols : nat;
  mat_rows : list (list sample)
}.

(** Modelled from the spec: the pickled scaler ([model-svm.pkl] is not part of
    the repository) is a pre-fitted transform with a fixed expected input
    width; it maps each raw feature vector to a normalized vector. *)
Record Scaler := mkScaler {
  n_features_in : nat;
  scale_row : list sample -> list sample
}.

(** Modelled from the spec: the pickled classifier consumes normalized feature
    vectors and produces one scalar decision value per vector. *)
Record Classifier := mkClassifier {
  decision_row : list sample -> sample
}.

(** [scaler.transform(X)]: a matrix whose width is not the fitted width is
    rejected with an exception ([None]), as scikit-learn's transformers do;
    the result is a float64 matrix of the same width. *)
Definition transform_features (scaler : Scaler) (X : Matrix) : option Matrix :=
  if mat_cols X =? n_features_in scaler
  then Some (mkMatrix float64 (mat_cols X) (map (scale_row scaler) (mat_rows X)))
  else None.

(** [model.decision_function(X)] *)
Definition decision_function (model : Classifier) (X : Matrix) : list sample :=
  map (decision_row model) (mat_rows X).

(* ------------------------------------------------------------------------- *)
(** ** numpy helpers *)
(* ------------------------------------------------------------------------- *)

(** number of columns of a matrix given by its rows *)
Definition ncols {A : Type} (m : list (list A)) : nat :=
  match m with
  | [] => 0
  | row :: _ => length row
  end.

(** [m.T] *)
Definition transpose (m : list (list sample)) : list (list sample) :=
  tabulate (ncols m) (fun i => map (fun row => nth i row NaN) m).

(** [flat.reshape((n, k))]: raises ([None]) unless the sizes agree. *)
Definition reshape2 {A : Type} (n k : nat) (flat : list A) : option (list (list A)) :=
  if length flat =? n * k
  then Some (tabulate n (fun i => firstn k (skipn (i * k) flat)))
  else None.

(** [np.zeros((h, w), dtype=np.float32)] *)
Definition zeros (h w : nat) : Array2 := repeat (repeat (Fin 0) w) h.

(** [np.zeros_like(a)] for a 3-D array *)
Definition zeros_like (a : Array3) : Array3 :=
  map (map (map (fun _ => Fin 0))) a.

(** an elementwise operation on a 3-D array *)
Definition map3 (f : sample -> sample) (a : Array3) : Array3 :=
  map (map (map f)) a.

(** [np.dstack((red, green, blue))]: the three grids become the channels of
    one image. *)
Definition dstack (red green blue : Array2) : Array3 :=
  map (fun rows =>
         map (fun px => [fst (fst px); snd (fst px); snd px])
             (combine (combine (fst (fst rows)) (snd (fst rows))) (snd rows)))
      (combine (combine red green) blue).

(** [surf[y:y+bh, x:x+bw] = block] for a block of [bh] rows and [bw] columns.
    The slice is clipped to the array, and a block of another shape than the
    clipped slice raises ([None]). *)
Definition set_block (surf : Array2) (y x bh bw : nat) (block : Array2) : option Array2 :=
  if (y + bh <=? length surf) && forallb (fun row => x + bw <=? length row) surf
  then Some (tabulate (length surf) (fun r =>
               let row := nth r surf [] in
               tabulate (length row) (fun c =>
                 if (y <=? r) && (r <? y + bh) && ((x <=? c) && (c <? x + bw))
                 then nth (c - x) (nth (r - y) block []) NaN
                 else nth c row NaN)))
  else None.

(* ------------------------------------------------------------------------- *)
(** ** The Streamlit side *)
(* ------------------------------------------------------------------------- *)

(** The texts passed to [st.error]. *)
Inductive message : Type :=
| BandCountMsg (band_count : nat)   (* Image has .. bands, but at least 11 are required. *)
| RgbImageMsg                       (* Error creating RGB image: .. *)
| InvalidValuesMsg                  (* Invalid (NaN or infinite) values found in input data. *)
| ProcessingMsg.                    (* Error processing image: .. *)

(** What the functions do to the page, in order. *)
Inductive event : Type :=
| StError (m : message)
| ProgressBar (chunk_count total : nat)
| ProgressText (chunk_count total : nat)
| ProgressComplete.

Definition UI := list event.

(** the last error shown, if any *)
Definition last_error (ui : UI) : option message :=
  match rev ui with
  | StError m :: _ => Some m
  | _ => None
  end.

(* ------------------------------------------------------------------------- *)
(** ** [get_rgb_image] *)
(* ------------------------------------------------------------------------- *)

(** Bands 7, 4 and 3 as red, green and blue, rescaled by the minimum and
    maximum over the whole stacked image, in exact arithmetic: the rounding
    and overflow of [astype(np.float32)] and of the float32 operations are
    added in [get_rgb_image_float32] below.  Any exception is reported and
    gives [None]. *)
Definition get_rgb_image (src : Raster) (ui : UI) : UI * option Array3 :=
  match read_band src 7, read_band src 4, read_band src 3 with
  | Some red, Some green, Some blue =>
      let rgb := dstack red green blue in
      match nanmin (flatten3 rgb), nanmax (flatten3 rgb) with
      | Some rgb_min, Some rgb_max =>
          if sample_gtb rgb_max rgb_min
          then (ui, Some (map3 (fun v => sample_div (sample_sub v rgb_min)
                                                    (sample_sub rgb_max rgb_min)) rgb))
          else (ui, Some (zeros_like rgb))
      | _, _ => (ui ++ [StError RgbImageMsg], None)
      end
  | _, _, _ => (ui ++ [StError RgbImageMsg], None)
  end.

(* ------------------------------------------------------------------------- *)
(** ** [predict_geotiff] *)
(* ------------------------------------------------------------------------- *)

(** The feature matrix of a window: [data[1:, :, :].reshape(band_count - 1, -1).T]
    (the reshape flattens each remaining band; the run gets here with at
    least 11 bands). *)
Definition window_features (src : Raster) (window : Window) : Matrix :=
  let data := read_window src window in
  let data := skipn 1 data in
  mkMatrix (dtypes src) (count src - 1) (transpose (map (@concat sample) data)).

(** [np.isnan(features).any() or np.isinf(features).any()] *)
Definition invalid_values (features : Matrix) : bool :=
  existsb (existsb isnan) (mat_rows features) || existsb (existsb isinf) (mat_rows features).

(** The body of the loops up to the reshaped probabilities of the window;
    [inl] carries the message of the failure. *)
Definition chunk_probabilities (model : Classifier) (scaler : Scaler)
    (src : Raster) (window : Window) : message + Array2 :=
  let features := window_features src window in
  if invalid_values features
  then inl InvalidValuesMsg
  else
    match transform_features scaler features with
    | None => inl ProcessingMsg
    | Some features_normalized =>
        let decision_values := decision_function model features_normalized in
        let probabilities := map logistic decision_values in
        match reshape2 (win_height window) (win_width window) probabilities with
        | None => inl ProcessingMsg
        | Some probabilities => inr probabilities
        end
    end.

(** The loops over the windows still to visit.  [progress_bar.progress]
    rejects a value above 1. *)
Fixpoint process_chunks (model : Classifier) (scaler : Scaler) (src : Raster)
    (total_chunks : nat) (todo : list Window) (chunk_count : nat)
    (probability_predictions : Array2) (ui : UI) : UI * option Array2 :=
  match todo with
  | [] => (ui, Some probability_predictions)
  | window :: rest =>
      match chunk_probabilities model scaler src window with
      | inl msg => (ui ++ [StError msg], None)
      | inr probabilities =>
          match set_block probability_predictions (row_off window) (col_off window)
                          (win_height window) (win_width window) probabilities with
          | None => (ui ++ [StError ProcessingMsg], None)
          | Some probability_predictions =>
              let chunk_count := chunk_count + 1 in
              if total_chunks <? chunk_count
              then (ui ++ [StError ProcessingMsg], None)
              else process_chunks model scaler src total_chunks rest chunk_count
                     probability_predictions
                     (ui ++ [ProgressBar chunk_count total_chunks;
                             ProgressText chunk_count total_chunks])
          end
      end
  end.

Section Pipeline.
(** [MemoryFile(bytes).open()]: the decoder of rasterio; [None] when the
    bytes are not a raster it can open. *)
Variable rasterio_open : list byte -> option Raster.

(** The run: [Some (rgb_image, probability_predictions, meta)], or [None]
    for the triple of [None]s.  A chunk size of 0 makes the computation of
    [total_chunks] divide by zero; negative chunk sizes are left out. *)
Definition predict_geotiff (model : Classifier) (scaler : Scaler)
    (uploaded_file : list byte) (chunk_size : nat) (ui : UI)
    : UI * option (Array3 * Array2 * Meta) :=
  match rasterio_open uploaded_file with
  | None => (ui ++ [StError ProcessingMsg], None)
  | Some src =>
      let band_count := count src in
      if band_count <? 11
      then (ui ++ [StError (BandCountMsg band_count)], None)
      else
        match get_rgb_image src ui with
        | (ui, None) => (ui, None)
        | (ui, Some rgb_image) =>
            let probability_predictions := zeros (height src) (width src) in
            let ui := ui ++ [ProgressBar 0 1] in
            if chunk_size =? 0
            then (ui ++ [StError ProcessingMsg], None)
            else
              match process_chunks model scaler src
                      (total_chunks (height src) (width src) chunk_size)
                      (windows (height src) (width src) chunk_size) 0
                      probability_predictions ui with
              | (ui, None) => (ui, None)
              | (ui, Some probability_predictions) =>
                  (ui ++ [ProgressComplete],
                   Some (rgb_image, probability_predictions, meta src))
              end
        end
  end.
End Pipeline.

(** The feature vector of pixel [(r, c)]: its values in bands 2 up to the
    last, in band order. *)
Definition pixel_features (src : Raster) (r c : nat) : list sample :=
  map (fun b => sample_at src b r c) (seq 1 (count src - 1)).

(** The probability the run assigns to pixel [(r, c)]. *)
Definition pixel_probability (model : Classifier) (scaler : Scaler)
    (src : Raster) (r c : nat) : sample :=
  logistic (decision_row model (scale_row scaler (pixel_features src r c))).

(* ------------------------------------------------------------------------- *)
(** ** [plot_predictions]: statistics and overlay *)
(* ------------------------------------------------------------------------- *)

(** The arrays [plot_predictions] works on live in a store, since the overlay
    is built by assigning into an array. *)
Inductive ndarray : Type :=
| Image (a : Array3)
| Grid (a : Array2).

Definition loc := nat.
Definition heap := list ndarray.

Definition heap_get (hp : heap) (l : loc) : option ndarray := nth_error hp l.

(** a new array, at a location not used before *)
Definition heap_alloc (hp : heap) (v : ndarray) : heap * loc :=
  (hp ++ [v], length hp).

(** assignment into the array at [l] *)
Definition heap_set (hp : heap) (l : loc) (v : ndarray) : heap :=
  firstn l hp ++ v :: skipn (l + 1) hp.

(** [np.where(probability_predictions >= threshold, 1, 0)] *)
Definition binary_predictions (probability_predictions : Array2) (threshold : R)
    : list (list nat) :=
  map (map (fun p => if sample_geb p (Fin threshold) then 1 else 0))
      probability_predictions.

(** [np.sum(binary_predictions == v)] *)
Definition count_equal (v : nat) (binary : list (list nat)) : nat :=
  length (filter (Nat.eqb v) (concat binary)).

(** [(count / total_pixels) * 100] *)
Definition percentage (count total_pixels : nat) : sample :=
  sample_mul (sample_div (Fin (INR count)) (Fin (INR total_pixels))) (Fin 100).

Record RiskStatistics := mkRiskStatistics {
  high_risk_count : nat;
  low_risk_count : nat;
  total_pixels : nat;
  high_risk_percentage : sample;
  low_risk_percentage : sample
}.

(** The numbers of the statistics tab. *)
Definition risk_statistics (probability_predictions : Array2) (threshold : R)
    : RiskStatistics :=
  let binary := binary_predictions probability_predictions threshold in
  let high_risk_count := count_equal 1 binary in
  let low_risk_count := count_equal 0 binary in
  let total_pixels := high_risk_count + low_risk_count in
  mkRiskStatistics high_risk_count low_risk_count total_pixels
    (percentage high_risk_count total_pixels)
    (percentage low_risk_count total_pixels).

(** [probability_predictions >= threshold] *)
Definition mask (probability_predictions : Array2) (threshold : R) : list (list bool) :=
  map (map (fun p => sample_geb p (Fin threshold))) probability_predictions.

(** the highlight colour, [np.array([1, 0, 0])] *)
Definition highlight : list sample := [Fin 1; Fin 0; Fin 0].

(** [(1 - alpha) * px + alpha * highlight] for one pixel *)
Definition blend (alpha : R) (px : list sample) : list sample :=
  map (fun vh => sample_add (sample_mul (Fin (1 - alpha)) (fst vh))
                            (sample_mul (Fin alpha) (snd vh)))
      (combine px highlight).

(** the image and the mask agree on their first two axes, and the image has
    three channels *)
Definition overlay_shapes_ok (img : Array3) (msk : list (list bool)) : bool :=
  (length img =? length msk) &&
  forallb (fun rm => (length (fst rm) =? length (snd rm)) &&
                     forallb (fun px => length px =? 3) (fst rm))
          (combine img msk).

(** [overlay[mask] = (1 - alpha) * overlay[mask] + alpha * highlight] as a
    value: the selected pixels are blended, the others kept. *)
Definition blend_masked (alpha : R) (img : Array3) (msk : list (list bool)) : Array3 :=
  map (fun rm => map (fun pm => if (snd pm : bool) then blend alpha (fst pm) else fst pm)
                     (combine (fst rm) (snd rm)))
      (combine img msk).

(** The overlay tab: copy the image, compute the mask, assign into the copy.
    Returns the store afterwards and the location of the overlay; [None] when
    an argument is not an array of the right kind or the shapes disagree
    (numpy raises). *)
Definition overlay (hp : heap) (rgb_image probability_predictions : loc)
    (threshold alpha : R) : option (heap * loc) :=
  match heap_get hp rgb_image, heap_get hp probability_predictions with
  | Some (Image img), Some (Grid probs) =>
      let (hp, overlay) := heap_alloc hp (Image img) in
      let msk := mask probs threshold in
      match heap_get hp overlay with
      | Some (Image current) =>
          if overlay_shapes_ok current msk
          then Some (heap_set hp overlay (Image (blend_masked alpha current msk)), overlay)
          else None
      | _ => None
      end
  | _, _ => None
  end.

(* ------------------------------------------------------------------------- *)
(** ** Vocabulary of the statements *)
(* ------------------------------------------------------------------------- *)

(** The progress reports of [n] windows processed after the first
    [chunk_count]. *)
Definition progress_events (total_chunks chunk_count n : nat) : UI :=
  flat_map (fun k => [ProgressBar k total_chunks; ProgressText k total_chunks])
           (seq (chunk_count + 1) n).

(** The window lies inside an [h] by [w] raster. *)
Definition window_inside (h w : nat) (win : Window) : Prop :=
  col_off win + win_width win <= w /\ row_off win + win_height win <= h.

(** The three values of the composite at pixel [(r, c)] before rescaling:
    bands 7, 4 and 3. *)
Definition composite_bands (src : Raster) (r c : nat) : list sample :=
  [sample_at src 6 r c; sample_at src 3 r c; sample_at src 2 r c].

(* ------------------------------------------------------------------------- *)
(** ** Sample inputs *)
(* ------------------------------------------------------------------------- *)

(** A raster of the given shape whose sample in band [b + 1] at [(r, c)] is
    the number [b + r + c]. *)
Definition ramp_raster (h w bands : nat) : Raster :=
  mkRaster h w bands int16 4326 [5; 0; 0; 0; -5; 0]%R
    (fun b r c => Fin (INR (b + r + c))).

(** The same raster with one sample replaced. *)
Definition with_sample (src : Raster) (b r c : nat) (v : sample) : Raster :=
  mkRaster (height src) (width src) (count src) (dtypes src) (crs src) (transform src)
    (fun b' r' c' => if (b' =? b) && (r' =? r) && (c' =? c) then v
                     else sample_at src b' r' c').

(** A scaler fitted on 10 features that leaves the values as they are. *)
Definition unit_scaler : Scaler := mkScaler 10 (fun v => v).

(** A classifier whose decision value is the first feature. *)
Definition first_feature_classifier : Classifier :=
  mkClassifier (fun v => nth 0 v (Fin 0)).

(** A decoder that opens every upload as the given raster. *)
Definition opens_as (src : Raster) : list byte -> option Raster :=
  fun _ => Some src.

(* ------------------------------------------------------------------------- *)
(** ** [main]: the two exports *)
(* ------------------------------------------------------------------------- *)

Section Exports.
(** how pandas prints one value of the surface *)
Variable format_float : sample -> String.string.

(** [pd.DataFrame({'probability': probability_predictions.flatten()})
    .to_csv(index=False)], as its lines: the header, then one line per entry
    of the flattened surface. *)
Definition predictions_csv (probability_predictions : Array2) : list String.string :=
  "probability"%string :: map format_float (concat probability_predictions).
End Exports.

(** the array has shape [(h, w)] *)
Definition shape_is (h w : nat) (a : Array2) : bool :=
  (length a =? h) && forallb (fun row => length row =? w) a.

(** The dataset written in the GeoTIFF export: one float32 band with the
    height, width, crs and transform of [meta], holding the surface;
    [dst.write] raises ([None]) for an array of another shape. *)
Definition write_predictions (input_meta : Meta) (probability_predictions : Array2)
    : option Raster :=
  if shape_is (meta_height input_meta) (meta_width input_meta) probability_predictions
  then Some (mkRaster (meta_height input_meta) (meta_width input_meta) 1 float32
               (meta_crs input_meta) (meta_transform input_meta)
               (fun b r c => if b =? 0
                             then nth c (nth r probability_predictions []) NaN
                             else NaN))
  else None.

(* ------------------------------------------------------------------------- *)
(** ** [get_rgb_image] in float32 *)
(* ------------------------------------------------------------------------- *)

Section Float32.
(** The rounding of a real number to float32: a float32 number, or an
    infinity when the number is beyond the float32 range. *)
Variable round32 : R -> sample.

(** [astype(np.float32)] on one value; the result of a float32 operation is
    its exact result cast in the same way. *)
Definition astype_float32 (v : sample) : sample :=
  match v with
  | Fin x => round32 x
  | _ => v
  end.

(** float32 subtraction and division *)
Definition sub32 (a b : sample) : sample := astype_float32 (sample_sub a b).
Definition div32 (a b : sample) : sample := astype_float32 (sample_div a b).

(** [get_rgb_image] with the three bands cast to float32 and the rescaling
    carried out in float32. *)
Definition get_rgb_image_float32 (src : Raster) (ui : UI) : UI * option Array3 :=
  match read_band src 7, read_band src 4, read_band src 3 with
  | Some red, Some green, Some blue =>
      let red := map (map astype_float32) red in
      let green := map (map astype_float32) green in
      let blue := map (map astype_float32) blue in
      let rgb := dstack red green blue in
      match nanmin (flatten3 rgb), nanmax (flatten3 rgb) with
      | Some rgb_min, Some rgb_max =>
          if sample_gtb rgb_max rgb_min
          then (ui, Some (map3 (fun v => div32 (sub32 v rgb_min)
                                               (sub32 rgb_max rgb_min)) rgb))
          else (ui, Some (zeros_like rgb))
      | _, _ => (ui ++ [StError RgbImageMsg], None)
      end
  | _, _, _ => (ui ++ [StError RgbImageMsg], None)
  end.

End Float32.





(* ------------------------------------------------------------------------- *)
(** * Properties *)
(* ------------------------------------------------------------------------- *)

(** ** Index-built lists *)

Lemma length_tabulate {A : Type} (n : nat) (f : nat -> A) :
  length (tabulate n f) = n.
Proof. unfold tabulate. now rewrite length_map, length_seq. Qed.

Lemma nth_error_tabulate {A : Type} (n : nat) (f : nat -> A) (i : nat) :
  nth_error (tabulate n f) i = if i <? n then Some (f i) else None.
Proof.
  unfold tabulate. rewrite nth_error_map, nth_error_seq.
  destruct (i <? n); reflexivity.
Qed.

Lemma nth_tabulate {A : Type} (n : nat) (f : nat -> A) (i : nat) (d : A) :
  i < n -> nth i (tabulate n f) d = f i.
Proof.
  intros Hi. apply nth_error_nth. rewrite nth_error_tabulate.
  apply Nat.ltb_lt in Hi. now rewrite Hi.
Qed.

Lemma tabulate_ext {A : Type} (n : nat) (f g : nat -> A) :
  (forall i, i < n -> f i = g i) -> tabulate n f = tabulate n g.
Proof.
  intros H. unfold tabulate. apply map_ext_in.
  intros i Hi. apply in_seq in Hi. apply H. lia.
Qed.

Lemma tabulate_S {A : Type} (n : nat) (f : nat -> A) :
  tabulate (S n) f = f 0 :: tabulate n (fun i => f (S i)).
Proof.
  unfold tabulate. simpl. f_equal. rewrite <- seq_shift, map_map. reflexivity.
Qed.

Lemma map_tabulate {A B : Type} (g : A -> B) (n : nat) (f : nat -> A) :
  map g (tabulate n f) = tabulate n (fun i => g (f i)).
Proof. unfold tabulate. now rewrite map_map. Qed.

Lemma get2_tabulate2 {A : Type} (h w : nat) (f : nat -> nat -> A) (r c : nat) :
  get2 (tabulate2 h w f) r c = if (r <? h) && (c <? w) then Some (f r c) else None.
Proof.
  unfold get2, tabulate2. rewrite nth_error_tabulate.
  destruct (r <? h); simpl; [|reflexivity].
  now rewrite nth_error_tabulate.
Qed.

Lemma has_shape_tabulate2 {A : Type} (h w : nat) (f : nat -> nat -> A) :
  has_shape h w (tabulate2 h w f).
Proof.
  split.
  - apply length_tabulate.
  - apply Forall_forall. intros row Hrow. unfold tabulate2, tabulate in Hrow.
    apply in_map_iff in Hrow. destruct Hrow as [r [<- _]]. apply length_tabulate.
Qed.

(** ** Window enumeration *)

Lemma py_range_0 (stop step : nat) :
  py_range 0 stop step = map (fun i => i * step) (seq 0 ((stop + step - 1) / step)).
Proof. unfold py_range. now rewrite Nat.sub_0_r. Qed.

(** the number of origins along an axis of extent [n] *)
Lemma origins_spec (n c : nat) :
  1 <= c ->
  forall i, i < (n + c - 1) / c <-> i * c < n.
Proof.
  intros Hc i.
  pose proof (Nat.div_mod_eq (n + c - 1) c) as Hdm.
  pose proof (Nat.mod_upper_bound (n + c - 1) c ltac:(lia)) as Hmod.
  split; intros H; nia.
Qed.

Lemma div_interval (r c i : nat) :
  1 <= c -> (i * c <= r /\ r < i * c + c) <-> i = r / c.
Proof.
  intros Hc.
  pose proof (Nat.div_mod_eq r c) as Hdm.
  pose proof (Nat.mod_upper_bound r c ltac:(lia)) as Hmod.
  split; intros H; nia.
Qed.

Lemma length_filter_map {A B : Type} (P : B -> bool) (g : A -> B) (l : list A) :
  length (filter P (map g l)) = length (filter (fun a => P (g a)) l).
Proof.
  induction l as [|a l IH]; simpl; [reflexivity|].
  destruct (P (g a)); simpl; now rewrite IH.
Qed.

Lemma length_filter_eqb_seq (k a n : nat) :
  length (filter (fun i => i =? k) (seq a n)) =
  if (a <=? k) && (k <? a + n) then 1 else 0.
Proof.
  revert a. induction n as [|n IH]; intros a.
  - simpl. destruct (a <=? k) eqn:E1; simpl; [|reflexivity].
    destruct (k <? a + 0) eqn:E2; [|reflexivity].
    apply Nat.leb_le in E1. apply Nat.ltb_lt in E2. lia.
  - cbn [seq filter]. specialize (IH (S a)).
    assert (Hb : forall b : bool, (b = true <-> False) -> b = false)
      by (intros [|] Hx; [exfalso; apply Hx; reflexivity | reflexivity]).
    destruct (a =? k) eqn:E.
    + apply Nat.eqb_eq in E. subst a. cbn [length]. rewrite IH.
      replace (S k <=? k) with false by (symmetry; apply Nat.leb_gt; lia).
      replace (k <=? k) with true by (symmetry; apply Nat.leb_le; lia).
      replace (k <? k + S n) with true by (symmetry; apply Nat.ltb_lt; lia).
      reflexivity.
    + apply Nat.eqb_neq in E. rewrite IH.
      replace (S a <=? k) with (a <=? k).
      * replace (k <? S a + n) with (k <? a + S n) by (f_equal; lia). reflexivity.
      * destruct (a <=? k) eqn:E1.
        -- apply Nat.leb_le in E1. symmetry. apply Nat.leb_le. lia.
        -- apply Nat.leb_gt in E1. symmetry. apply Nat.leb_gt. lia.
Qed.

(** Along one axis of extent [n], the clipped intervals starting at the
    origins contain each position below [n] exactly once. *)
Lemma axis_partition (n c r : nat) :
  1 <= c -> r < n ->
  length (filter (fun y => (y <=? r) && (r <? y + Nat.min c (n - y)))
                 (py_range 0 n c)) = 1.
Proof.
  intros Hc Hr. rewrite py_range_0, length_filter_map.
  rewrite (filter_ext_in _ (fun i => i =? r / c)).
  - rewrite length_filter_eqb_seq. simpl.
    assert (Hq : r / c < (n + c - 1) / c).
    { apply origins_spec; [lia|].
      pose proof (Nat.div_mod_eq r c). nia. }
    apply Nat.ltb_lt in Hq. now rewrite Hq.
  - intros i Hi. apply in_seq in Hi.
    assert (Hin : i * c < n) by (apply origins_spec; lia).
    destruct (i =? r / c) eqn:E.
    + apply Nat.eqb_eq in E. apply div_interval in E; [|lia].
      apply andb_true_iff. split; [apply Nat.leb_le | apply Nat.ltb_lt]; lia.
    + apply Nat.eqb_neq in E. apply andb_false_iff.
      destruct (Nat.le_gt_cases (i * c) r) as [Hle|Hgt].
      * right. apply Nat.ltb_ge.
        assert (~ r < i * c + c) by (intros Hlt; apply E, div_interval; lia).
        lia.
      * left. apply Nat.leb_gt. lia.
Qed.

Lemma length_filter_flat_map {A B : Type} (P : B -> bool) (f : A -> list B) (l : list A) :
  length (filter P (flat_map f l)) =
  list_sum (map (fun a => length (filter P (f a))) l).
Proof.
  induction l as [|a l IH]; simpl; [reflexivity|].
  now rewrite filter_app, length_app, IH.
Qed.

(** A product predicate on a grid of origins selects the product of the
    selections on the axes. *)
Lemma length_filter_grid {W : Type} (mk : nat -> nat -> W) (P : W -> bool)
    (Py Px : nat -> bool) (ys xs : list nat) :
  (forall x y, P (mk x y) = Py y && Px x) ->
  length (filter P (flat_map (fun y => map (fun x => mk x y) xs) ys)) =
  length (filter Py ys) * length (filter Px xs).
Proof.
  intros HP. rewrite length_filter_flat_map.
  assert (Hnil : forall l : list nat, filter (fun _ => false) l = []).
  { intros l0. induction l0; simpl; auto. }
  induction ys as [|y ys IH]; simpl; [reflexivity|].
  rewrite IH, length_filter_map.
  destruct (Py y) eqn:E.
  - rewrite (filter_ext _ Px) by (intros x; rewrite HP, E; reflexivity).
    simpl. lia.
  - rewrite (filter_ext _ (fun _ => false)) by (intros x; rewrite HP, E; reflexivity).
    rewrite Hnil. reflexivity.
Qed.

Lemma in_py_range_0 (n c y : nat) :
  1 <= c -> In y (py_range 0 n c) <-> exists i, y = i * c /\ i * c < n.
Proof.
  intros Hc. rewrite py_range_0, in_map_iff. split.
  - intros [i [<- Hi]]. exists i. split; [reflexivity|].
    apply in_seq in Hi. apply origins_spec; lia.
  - intros [i [-> Hi]]. exists i. split; [reflexivity|].
    apply in_seq. apply origins_spec in Hi; lia.
Qed.

Lemma in_windows (h w c : nat) (win : Window) :
  In win (windows h w c) <->
  exists x y, In y (py_range 0 h c) /\ In x (py_range 0 w c) /\
              win = chunk_window h w c x y.
Proof.
  unfold windows. rewrite in_flat_map. split.
  - intros [y [Hy Hin]]. apply in_map_iff in Hin. destruct Hin as [x [<- Hx]].
    exists x, y. auto.
  - intros [x [y [Hy [Hx ->]]]]. exists y. split; [assumption|].
    apply in_map_iff. exists x. auto.
Qed.

(** Every window of the enumeration is a non-empty rectangle inside the
    raster, at an origin that is a multiple of the chunk size. *)
Lemma window_in_bounds (h w c : nat) (win : Window) :
  1 <= c -> In win (windows h w c) ->
  (exists i j, row_off win = i * c /\ col_off win = j * c) /\
  win_width win = Nat.min c (w - col_off win) /\
  win_height win = Nat.min c (h - row_off win) /\
  1 <= win_width win /\ 1 <= win_height win /\
  col_off win + win_width win <= w /\ row_off win + win_height win <= h.
Proof.
  intros Hc Hin. apply in_windows in Hin. destruct Hin as [x [y [Hy [Hx ->]]]].
  apply in_py_range_0 in Hy; [|assumption]. apply in_py_range_0 in Hx; [|assumption].
  destruct Hy as [i [-> Hi]]. destruct Hx as [j [-> Hj]]. simpl.
  split; [exists i, j; auto|]. repeat split; lia.
Qed.

Lemma length_flat_map_grid {A B C : Type} (mk : A -> B -> C) (xs : list A) (ys : list B) :
  length (flat_map (fun y => map (fun x => mk x y) xs) ys) = length ys * length xs.
Proof.
  induction ys as [|y ys IH]; simpl; [reflexivity|].
  now rewrite length_app, length_map, IH.
Qed.

Lemma length_windows (h w c : nat) :
  length (windows h w c) = total_chunks h w c.
Proof.
  unfold windows, total_chunks. rewrite length_flat_map_grid, !py_range_0.
  now rewrite !length_map, !length_seq.
Qed.

Lemma flat_map_map {A B C : Type} (f : B -> list C) (g : A -> B) (l : list A) :
  flat_map f (map g l) = flat_map (fun a => f (g a)) l.
Proof. induction l as [|a l IH]; simpl; [reflexivity|]. now rewrite IH. Qed.

(** The enumeration is row-major over the origins [(j*c, i*c)]. *)
Lemma windows_row_major (h w c : nat) :
  windows h w c =
  flat_map (fun i => map (fun j => chunk_window h w c (j * c) (i * c))
                         (seq 0 ((w + c - 1) / c)))
           (seq 0 ((h + c - 1) / c)).
Proof.
  unfold windows. rewrite !py_range_0, flat_map_map.
  apply flat_map_ext. intros i. now rewrite map_map.
Qed.

(** A 5 by 3 raster in chunks of 2: six windows, the last column and the
    last row clipped to 1. *)
Example windows_5_3_2 :
  windows 5 3 2 =
  [mkWindow 0 0 2 2; mkWindow 2 0 1 2;
   mkWindow 0 2 2 2; mkWindow 2 2 1 2;
   mkWindow 0 4 2 1; mkWindow 2 4 1 1].
Proof. reflexivity. Qed.

Lemma in_window_chunk (h w c x y r col : nat) :
  in_window (chunk_window h w c x y) r col =
  ((y <=? r) && (r <? y + Nat.min c (h - y))) &&
  ((x <=? col) && (col <? x + Nat.min c (w - x))).
Proof. reflexivity. Qed.

(** Each pixel of the raster lies in exactly one window. *)
Lemma pixel_in_one_window (h w c r col : nat) :
  1 <= c -> r < h -> col < w ->
  length (filter (fun win => in_window win r col) (windows h w c)) = 1.
Proof.
  intros Hc Hr Hcol. unfold windows.
  rewrite (length_filter_grid (chunk_window h w c) (fun win => in_window win r col)
             (fun y => (y <=? r) && (r <? y + Nat.min c (h - y)))
             (fun x => (x <=? col) && (col <? x + Nat.min c (w - x)))).
  - now rewrite !axis_partition.
  - intros x y. apply in_window_chunk.
Qed.

Lemma in_window_spec (win : Window) (r col : nat) :
  in_window win r col = true <->
  (row_off win <= r < row_off win + win_height win) /\
  (col_off win <= col < col_off win + win_width win).
Proof.
  unfold in_window. rewrite !andb_true_iff, !Nat.leb_le, !Nat.ltb_lt. tauto.
Qed.

(** Some window of the enumeration contains the pixel. *)
Lemma pixel_covered (h w c r col : nat) :
  1 <= c -> r < h -> col < w ->
  exists win, In win (windows h w c) /\ in_window win r col = true.
Proof.
  intros Hc Hr Hcol.
  pose proof (pixel_in_one_window h w c r col Hc Hr Hcol) as H1.
  destruct (filter (fun win => in_window win r col) (windows h w c)) as [|win l] eqn:E;
    [discriminate|].
  assert (Hin : In win (filter (fun win => in_window win r col) (windows h w c)))
    by (rewrite E; now left).
  apply filter_In in Hin. exists win. exact Hin.
Qed.

(** C1. For every raster extent and every chunk size of at least 1, the
    windows the driver enumerates (row-major, at origins that are multiples of
    the chunk size, of width [min(c, w - x)] and height [min(c, h - y)])
    partition the pixel grid: each window is a non-empty rectangle inside the
    raster, clipped at the right and bottom edges, every pixel of the raster
    lies in exactly one window, a window contains raster pixels only, and
    there are [total_chunks] windows. *)
Theorem windows_partition (h w c : nat) :
  1 <= c ->
  windows h w c =
    flat_map (fun i => map (fun j => chunk_window h w c (j * c) (i * c))
                           (seq 0 ((w + c - 1) / c)))
             (seq 0 ((h + c - 1) / c)) /\
  (forall win, In win (windows h w c) ->
     win_width win = Nat.min c (w - col_off win) /\
     win_height win = Nat.min c (h - row_off win) /\
     1 <= win_width win /\ 1 <= win_height win /\
     col_off win + win_width win <= w /\ row_off win + win_height win <= h) /\
  (forall r col, r < h -> col < w ->
     length (filter (fun win => in_window win r col) (windows h w c)) = 1) /\
  (forall win r col, In win (windows h w c) -> in_window win r col = true ->
     r < h /\ col < w) /\
  length (windows h w c) = total_chunks h w c.
Proof.
  intros Hc. split; [apply windows_row_major|].
  split; [intros win Hin; apply (window_in_bounds h w c win Hc Hin)|].
  split; [intros r col; now apply pixel_in_one_window|].
  split; [|apply length_windows].
  intros win r col Hin Hpix.
  destruct (window_in_bounds h w c win Hc Hin) as (_ & _ & _ & _ & _ & Hx & Hy).
  apply in_window_spec in Hpix. lia.
Qed.

Lemma windows_partition_witness :
  1 <= 2 /\
  length (filter (fun win => in_window win 4 2) (windows 5 3 2)) = 1.
Proof.
  split; [lia|].
  apply (windows_partition 5 3 2); lia.
Defined.

(** ** More on index-built lists *)

Lemma tabulate_app {A : Type} (a b : nat) (f : nat -> A) :
  tabulate (a + b) f = tabulate a f ++ tabulate b (fun k => f (a + k)).
Proof.
  unfold tabulate. rewrite seq_app, map_app. f_equal.
  simpl. rewrite <- (map_map (fun k => a + k) f). f_equal.
  clear. revert a. induction b as [|b IH]; intros a; simpl; [reflexivity|].
  f_equal; [lia|]. rewrite IH. rewrite <- seq_shift, !map_map.
  apply map_ext. intros k. lia.
Qed.

Lemma tabulate2_ext {A : Type} (h w : nat) (f g : nat -> nat -> A) :
  (forall r c, r < h -> c < w -> f r c = g r c) ->
  tabulate2 h w f = tabulate2 h w g.
Proof.
  intros H. unfold tabulate2. apply tabulate_ext. intros r Hr.
  apply tabulate_ext. intros c Hc. now apply H.
Qed.

(** Flattening a grid row by row: entry [k] is the entry at row [k / w] and
    column [k mod w]. *)
Lemma concat_tabulate2 {A : Type} (h w : nat) (g : nat -> nat -> A) :
  concat (tabulate2 h w g) = tabulate (h * w) (fun k => g (k / w) (k mod w)).
Proof.
  revert g. induction h as [|h IH]; intros g; [reflexivity|].
  unfold tabulate2 in *. rewrite tabulate_S. cbn [concat].
  rewrite IH. replace (S h * w) with (w + h * w) by lia.
  rewrite tabulate_app. f_equal.
  - apply tabulate_ext. intros k Hk.
    now rewrite Nat.div_small, Nat.mod_small.
  - apply tabulate_ext. intros k Hk.
    assert (Hw : w <> 0) by (intros ->; lia).
    replace (w + k) with (k + 1 * w) by lia.
    rewrite Nat.div_add, Nat.Div0.mod_add by assumption.
    f_equal. lia.
Qed.

Lemma firstn_skipn_tabulate {A : Type} (n a k : nat) (G : nat -> A) :
  a + k <= n ->
  firstn k (skipn a (tabulate n G)) = tabulate k (fun j => G (a + j)).
Proof.
  intros Hle. replace n with (a + (k + (n - a - k))) by lia.
  rewrite tabulate_app, skipn_app, length_tabulate, Nat.sub_diag.
  rewrite skipn_all2 by (rewrite length_tabulate; lia). simpl.
  rewrite tabulate_app, firstn_app, length_tabulate, Nat.sub_diag.
  rewrite firstn_all2 by (rewrite length_tabulate; lia).
  simpl. now rewrite app_nil_r.
Qed.

(** Reshaping a flat list of [n * k] entries gives the grid whose entry at
    [(i, j)] is entry [i * k + j] of the list. *)
Lemma reshape2_tabulate {A : Type} (n k : nat) (G : nat -> A) :
  reshape2 n k (tabulate (n * k) G) = Some (tabulate2 n k (fun i j => G (i * k + j))).
Proof.
  unfold reshape2. rewrite length_tabulate, Nat.eqb_refl. f_equal.
  unfold tabulate2. apply tabulate_ext. intros i Hi.
  apply firstn_skipn_tabulate. nia.
Qed.

Lemma skipn_1_tabulate {A : Type} (n : nat) (f : nat -> A) :
  skipn 1 (tabulate n f) = map f (seq 1 (n - 1)).
Proof.
  destruct n as [|n]; [reflexivity|].
  unfold tabulate. simpl. now rewrite Nat.sub_0_r.
Qed.

Lemma zeros_tabulate2 (h w : nat) :
  zeros h w = tabulate2 h w (fun _ _ => Fin 0).
Proof.
  assert (Hrep : forall (A : Type) (x : A) n, repeat x n = tabulate n (fun _ => x)).
  { intros A x n. induction n as [|n IH]; [reflexivity|].
    rewrite tabulate_S. simpl. now rewrite IH. }
  unfold zeros, tabulate2. now rewrite !Hrep.
Qed.

(** Assigning a block into a grid, entry by entry. *)
Lemma set_block_tabulate2 (h w y x bh bw : nat) (f g : nat -> nat -> sample) :
  y + bh <= h -> x + bw <= w ->
  set_block (tabulate2 h w f) y x bh bw (tabulate2 bh bw g) =
  Some (tabulate2 h w (fun r c =>
          if (y <=? r) && (r <? y + bh) && ((x <=? c) && (c <? x + bw))
          then g (r - y) (c - x) else f r c)).
Proof.
  intros Hy Hx. unfold set_block.
  assert (Hlen : length (tabulate2 h w f) = h) by apply length_tabulate.
  rewrite Hlen.
  replace (y + bh <=? h) with true by (symmetry; apply Nat.leb_le; lia).
  replace (forallb (fun row => x + bw <=? length row) (tabulate2 h w f)) with true.
  - simpl. f_equal. unfold tabulate2 at 2. apply tabulate_ext. intros r Hr.
    assert (Hrow : nth r (tabulate2 h w f) [] = tabulate w (f r))
      by exact (nth_tabulate h (fun r0 => tabulate w (f r0)) r [] Hr).
    rewrite Hrow, length_tabulate. apply tabulate_ext. intros c Hc.
    destruct ((y <=? r) && (r <? y + bh) && ((x <=? c) && (c <? x + bw))) eqn:E.
    + apply andb_true_iff in E. destruct E as [E1 E2].
      apply andb_true_iff in E1. destruct E1 as [E1 E1'].
      apply andb_true_iff in E2. destruct E2 as [E2 E2'].
      apply Nat.leb_le in E1, E2. apply Nat.ltb_lt in E1', E2'.
      unfold tabulate2. rewrite nth_tabulate by lia. apply nth_tabulate. lia.
    + now apply nth_tabulate.
  - symmetry. apply forallb_forall. intros row Hrow.
    destruct (has_shape_tabulate2 h w f) as [_ Hall].
    rewrite Forall_forall in Hall. rewrite (Hall row Hrow).
    apply Nat.leb_le. lia.
Qed.

(** ** Array values *)

Lemma Rlt_bool_true (x y : R) : (x < y)%R -> Rlt_bool x y = true.
Proof. intros H. unfold Rlt_bool. destruct (Rlt_dec x y); [reflexivity|contradiction]. Qed.

Lemma Rlt_bool_false (x y : R) : ~ (x < y)%R -> Rlt_bool x y = false.
Proof. intros H. unfold Rlt_bool. destruct (Rlt_dec x y); [contradiction|reflexivity]. Qed.

Lemma Rle_bool_true (x y : R) : (x <= y)%R -> Rle_bool x y = true.
Proof. intros H. unfold Rle_bool. destruct (Rle_dec x y); [reflexivity|contradiction]. Qed.

Lemma Rle_bool_false (x y : R) : ~ (x <= y)%R -> Rle_bool x y = false.
Proof. intros H. unfold Rle_bool. destruct (Rle_dec x y); [contradiction|reflexivity]. Qed.

Lemma Req_bool_false (x y : R) : x <> y -> Req_bool x y = false.
Proof. intros H. unfold Req_bool. destruct (Req_dec_T x y); [contradiction|reflexivity]. Qed.

Lemma sample_div_fin (x y : R) :
  y <> 0%R -> sample_div (Fin x) (Fin y) = Fin (x / y).
Proof. intros H. simpl. now rewrite Req_bool_false. Qed.

(** The logistic transform of a finite score. *)
Lemma logistic_fin (d : R) :
  logistic (Fin d) = Fin (1 / (1 + exp (- d))).
Proof.
  unfold logistic. simpl sample_opp. simpl sample_exp. simpl sample_add.
  apply sample_div_fin. pose proof (exp_pos (- d)). lra.
Qed.

(** The logistic transform of any score but NaN lies in [[0, 1]]. *)
Lemma logistic_in_unit (d : sample) :
  isnan d = false -> in_unit (logistic d).
Proof.
  destruct d as [d | | |]; intros Hd; try discriminate.
  - rewrite logistic_fin. simpl.
    pose proof (exp_pos (- d)) as He.
    assert (H1 : (0 < 1 + exp (- d))%R) by lra.
    split.
    + apply Rlt_le. apply Rdiv_lt_0_compat; lra.
    + apply (Rmult_le_reg_r (1 + exp (- d))); [assumption|].
      unfold Rdiv. rewrite Rmult_assoc, Rinv_l by lra. lra.
  - unfold logistic. simpl sample_opp. simpl sample_exp. simpl sample_add.
    rewrite sample_div_fin by lra. simpl.
    replace (1 / (1 + 0))%R with 1%R by (field; lra). lra.
  - unfold logistic. simpl. lra.
Qed.

(** ** The feature matrix of a window *)

Lemma index_div (i j w : nat) : j < w -> (i * w + j) / w = i.
Proof.
  intros Hj. rewrite Nat.div_add_l by lia. rewrite Nat.div_small by assumption. lia.
Qed.

Lemma index_mod (i j w : nat) : j < w -> (i * w + j) mod w = j.
Proof.
  intros Hj. rewrite Nat.add_comm, Nat.Div0.mod_add. now apply Nat.mod_small.
Qed.

Lemma pixel_features_length (src : Raster) (r c : nat) :
  length (pixel_features src r c) = count src - 1.
Proof. unfold pixel_features. now rewrite length_map, length_seq. Qed.

(** Row [k] of the feature matrix is the feature vector of the [k]-th pixel
    of the window in row-major order. *)
Lemma window_features_rows (src : Raster) (win : Window) :
  2 <= count src ->
  mat_rows (window_features src win) =
  tabulate (win_height win * win_width win)
    (fun k => pixel_features src (row_off win + k / win_width win)
                                 (col_off win + k mod win_width win)).
Proof.
  intros Hcount. unfold window_features, read_window. cbn [mat_rows].
  rewrite skipn_1_tabulate, map_map.
  unfold transpose.
  assert (Hn : ncols (map (fun b => concat (tabulate2 (win_height win) (win_width win)
                 (fun i j => sample_at src b (row_off win + i) (col_off win + j))))
                 (seq 1 (count src - 1))) = win_height win * win_width win).
  { destruct (count src - 1) as [|m] eqn:E; [lia|]. cbn [seq map ncols].
    now rewrite concat_tabulate2, length_tabulate. }
  rewrite Hn. apply tabulate_ext. intros k Hk.
  rewrite map_map. unfold pixel_features. apply map_ext. intros b.
  rewrite concat_tabulate2, nth_tabulate by assumption. reflexivity.
Qed.

(** One row of two pixels of a 3-band raster: two feature vectors, each
    with the values of bands 2 and 3. *)
Example window_features_1_2_3 :
  window_features (ramp_raster 1 2 3) (chunk_window 1 2 2 0 0) =
  mkMatrix int16 2 [[Fin (INR 1); Fin (INR 2)]; [Fin (INR 2); Fin (INR 3)]].
Proof. reflexivity. Qed.

Lemma existsb_false_iff {A : Type} (P : A -> bool) (l : list A) :
  existsb P l = false <-> forall x, In x l -> P x = false.
Proof.
  induction l as [|a l IH]; simpl.
  - split; [intros _ x []|reflexivity].
  - rewrite orb_false_iff, IH. split.
    + intros [Ha Hl] x [<-|Hx]; auto.
    + intros H. split; [apply H; now left | intros x Hx; apply H; now right].
Qed.

Lemma is_finite_spec (s : sample) :
  is_finite s = true <-> isnan s = false /\ isinf s = false.
Proof. destruct s; simpl; intuition discriminate. Qed.

Lemma in_tabulate {A : Type} (n : nat) (f : nat -> A) (x : A) :
  In x (tabulate n f) <-> exists i, i < n /\ x = f i.
Proof.
  unfold tabulate. rewrite in_map_iff. split.
  - intros [i [<- Hi]]. apply in_seq in Hi. exists i. split; [lia|reflexivity].
  - intros [i [Hi ->]]. exists i. split; [reflexivity|]. apply in_seq. lia.
Qed.

Lemma in_pixel_features (src : Raster) (r c : nat) (s : sample) :
  In s (pixel_features src r c) <->
  exists b, 1 <= b < count src /\ s = sample_at src b r c.
Proof.
  unfold pixel_features. rewrite in_map_iff. split.
  - intros [b [<- Hb]]. apply in_seq in Hb. exists b. split; [lia|reflexivity].
  - intros [b [Hb ->]]. exists b. split; [reflexivity|]. apply in_seq. lia.
Qed.

(** The check of the loop body passes exactly when every feature sample of
    the window is finite. *)
Lemma invalid_values_false (src : Raster) (win : Window) :
  2 <= count src ->
  invalid_values (window_features src win) = false <->
  (forall b i j, 1 <= b < count src -> i < win_height win -> j < win_width win ->
     is_finite (sample_at src b (row_off win + i) (col_off win + j)) = true).
Proof.
  intros Hcount. unfold invalid_values.
  rewrite window_features_rows by assumption.
  rewrite orb_false_iff, !existsb_false_iff. split.
  - intros [Hnan Hinf] b i j Hb Hi Hj.
    apply is_finite_spec.
    assert (Hrow : In (pixel_features src (row_off win + i) (col_off win + j))
              (tabulate (win_height win * win_width win)
                 (fun k => pixel_features src (row_off win + k / win_width win)
                                              (col_off win + k mod win_width win)))).
    { apply in_tabulate. exists (i * win_width win + j). split; [nia|].
      now rewrite index_div, index_mod. }
    specialize (Hnan _ Hrow). specialize (Hinf _ Hrow).
    rewrite existsb_false_iff in Hnan, Hinf.
    split; [apply Hnan | apply Hinf]; apply in_pixel_features; exists b; auto.
  - intros Hfin.
    assert (Hall : forall row s,
              In row (tabulate (win_height win * win_width win)
                 (fun k => pixel_features src (row_off win + k / win_width win)
                                              (col_off win + k mod win_width win))) ->
              In s row -> is_finite s = true).
    { intros row s Hrow Hs. apply in_tabulate in Hrow. destruct Hrow as [k [Hk ->]].
      apply in_pixel_features in Hs. destruct Hs as [b [Hb ->]].
      assert (Hw : win_width win <> 0) by (intros E; rewrite E in Hk; lia).
      apply Hfin; [assumption| |].
      - apply Nat.Div0.div_lt_upper_bound. lia.
      - now apply Nat.mod_upper_bound. }
    split; intros row Hrow; apply existsb_false_iff; intros s Hs;
      apply (is_finite_spec s); eapply Hall; eauto.
Qed.

(** ** One window of the loop *)

(** With a scaler fitted for the raster's feature width, the loop body either
    stops on the validity check or yields the grid of the pixels'
    probabilities. *)
Lemma chunk_probabilities_eq (model : Classifier) (scaler : Scaler)
    (src : Raster) (win : Window) :
  2 <= count src -> count src - 1 = n_features_in scaler ->
  chunk_probabilities model scaler src win =
  if invalid_values (window_features src win)
  then inl InvalidValuesMsg
  else inr (tabulate2 (win_height win) (win_width win)
              (fun i j => pixel_probability model scaler src
                            (row_off win + i) (col_off win + j))).
Proof.
  intros Hcount Hn. unfold chunk_probabilities.
  destruct (invalid_values (window_features src win)); [reflexivity|].
  unfold transform_features.
  replace (mat_cols (window_features src win)) with (count src - 1) by reflexivity.
  rewrite Hn, Nat.eqb_refl. unfold decision_function. cbn [mat_rows].
  rewrite window_features_rows by assumption.
  rewrite !map_tabulate, reshape2_tabulate. f_equal.
  apply tabulate2_ext. intros i j Hi Hj. unfold pixel_probability.
  now rewrite index_div, index_mod.
Qed.

(** A scaler fitted for another width rejects every window that passes the
    validity check. *)
Lemma chunk_probabilities_mismatch (model : Classifier) (scaler : Scaler)
    (src : Raster) (win : Window) :
  count src - 1 <> n_features_in scaler ->
  chunk_probabilities model scaler src win =
  if invalid_values (window_features src win)
  then inl InvalidValuesMsg else inl ProcessingMsg.
Proof.
  intros Hn. unfold chunk_probabilities.
  destruct (invalid_values (window_features src win)); [reflexivity|].
  unfold transform_features.
  replace (mat_cols (window_features src win)) with (count src - 1) by reflexivity.
  apply Nat.eqb_neq in Hn. now rewrite Hn.
Qed.

(** ** The loop over the windows *)

Lemma last_error_app (ui : UI) (m : message) :
  last_error (ui ++ [StError m]) = Some m.
Proof. unfold last_error. now rewrite rev_app_distr. Qed.

(** When every window passes the validity check, the loop writes each
    window's probabilities and reports progress after each window. *)
Lemma process_chunks_clean (model : Classifier) (scaler : Scaler) (src : Raster)
    (h w total : nat) :
  2 <= count src -> count src - 1 = n_features_in scaler ->
  forall (ws : list Window) (k : nat) (f : nat -> nat -> sample) (ui : UI),
    (forall win, In win ws -> window_inside h w win) ->
    (forall win, In win ws -> invalid_values (window_features src win) = false) ->
    k + length ws <= total ->
    process_chunks model scaler src total ws k (tabulate2 h w f) ui =
    (ui ++ progress_events total k (length ws),
     Some (tabulate2 h w (fun r c =>
             if existsb (fun win => in_window win r c) ws
             then pixel_probability model scaler src r c
             else f r c))).
Proof.
  intros Hcount Hn ws. induction ws as [|win rest IH]; intros k f ui Hin Hok Hk.
  - simpl. unfold progress_events. simpl. now rewrite app_nil_r.
  - cbn [process_chunks].
    rewrite chunk_probabilities_eq by assumption.
    rewrite (Hok win) by now left.
    destruct (Hin win) as [Hx Hy]; [now left|].
    rewrite set_block_tabulate2 by assumption.
    cbn [length] in Hk.
    replace (total <? k + 1) with false by (symmetry; apply Nat.ltb_ge; lia).
    rewrite IH; [| intros; apply Hin; now right | intros; apply Hok; now right | lia].
    f_equal.
    + rewrite <- app_assoc. f_equal. unfold progress_events. cbn [length seq flat_map].
      now rewrite (Nat.add_1_r (k + 1)).
    + f_equal. apply tabulate2_ext. intros r c Hr Hc.
      cbn [existsb]. unfold in_window at 2.
      destruct (existsb (fun win0 => in_window win0 r c) rest) eqn:E.
      * now rewrite orb_true_r.
      * rewrite orb_false_r.
        destruct ((row_off win <=? r) && (r <? row_off win + win_height win) &&
                  ((col_off win <=? c) && (c <? col_off win + win_width win))) eqn:E2;
          [|reflexivity].
        apply andb_true_iff in E2. destruct E2 as [E2 E3].
        apply andb_true_iff in E2. destruct E2 as [E2 _].
        apply andb_true_iff in E3. destruct E3 as [E3 _].
        apply Nat.leb_le in E2, E3.
        f_equal; lia.
Qed.


(** Whatever the scaler, a window that fails the validity check leaves the
    loop without a surface. *)
Lemma process_chunks_invalid_none (model : Classifier) (scaler : Scaler) (src : Raster)
    (total : nat) (ws : list Window) :
  (exists win, In win ws /\ invalid_values (window_features src win) = true) ->
  forall (k : nat) (surf : Array2) (ui : UI),
    snd (process_chunks model scaler src total ws k surf ui) = None.
Proof.
  induction ws as [|win rest IH]; intros Hbad k surf ui.
  - destruct Hbad as [win [[] _]].
  - cbn [process_chunks].
    destruct (chunk_probabilities model scaler src win) as [msg|probs] eqn:E;
      [reflexivity|].
    destruct (set_block surf _ _ _ _ probs); [|reflexivity].
    destruct (total <? k + 1); [reflexivity|].
    apply IH. destruct Hbad as [bad [[<-|Hbad] Hinv]]; [|exists bad; auto].
    unfold chunk_probabilities in E. rewrite Hinv in E. discriminate.
Qed.

(** ** The composite image *)

Lemma combine_map_same {A B C : Type} (f : A -> B) (g : A -> C) (l : list A) :
  combine (map f l) (map g l) = map (fun x => (f x, g x)) l.
Proof. induction l as [|a l IH]; simpl; [reflexivity|]. now rewrite IH. Qed.

Lemma dstack_tabulate2 (h w : nat) (f g k : nat -> nat -> sample) :
  dstack (tabulate2 h w f) (tabulate2 h w g) (tabulate2 h w k) =
  tabulate2 h w (fun r c => [f r c; g r c; k r c]).
Proof.
  unfold dstack, tabulate2, tabulate.
  rewrite combine_map_same.
  rewrite (combine_map_same (fun x => (map (f x) (seq 0 w), map (g x) (seq 0 w)))).
  rewrite map_map. apply map_ext. intros r. cbn [fst snd].
  rewrite combine_map_same.
  rewrite (combine_map_same (fun x => (f r x, g r x))).
  rewrite map_map. reflexivity.
Qed.

Lemma read_band_ok (src : Raster) (k : nat) :
  1 <= k <= count src ->
  read_band src k = Some (tabulate2 (height src) (width src) (sample_at src (k - 1))).
Proof.
  intros [H1 H2]. unfold read_band.
  apply Nat.leb_le in H1, H2. now rewrite H1, H2.
Qed.

Lemma map3_tabulate2 (f : sample -> sample) (h w : nat) (px : nat -> nat -> list sample) :
  map3 f (tabulate2 h w px) = tabulate2 h w (fun r c => map f (px r c)).
Proof.
  unfold map3, tabulate2. rewrite map_tabulate. apply tabulate_ext. intros r _.
  now rewrite map_tabulate.
Qed.

Lemma zeros_like_tabulate2 (h w : nat) (px : nat -> nat -> list sample) :
  zeros_like (tabulate2 h w px) = tabulate2 h w (fun r c => map (fun _ => Fin 0) (px r c)).
Proof. apply (map3_tabulate2 (fun _ => Fin 0)). Qed.

Lemma in_flatten3_tabulate2 (h w : nat) (px : nat -> nat -> list sample) (v : sample) :
  In v (flatten3 (tabulate2 h w px)) <->
  exists r c, r < h /\ c < w /\ In v (px r c).
Proof.
  unfold flatten3. rewrite in_concat. split.
  - intros [l [Hl Hv]]. apply in_map_iff in Hl. destruct Hl as [row [<- Hrow]].
    unfold tabulate2 in Hrow. apply in_tabulate in Hrow. destruct Hrow as [r [Hr ->]].
    apply in_concat in Hv. destruct Hv as [p [Hp Hv]].
    apply in_tabulate in Hp. destruct Hp as [c [Hc ->]].
    exists r, c. auto.
  - intros [r [c [Hr [Hc Hv]]]]. exists (concat (tabulate w (px r))). split.
    + apply in_map_iff. exists (tabulate w (px r)). split; [reflexivity|].
      unfold tabulate2. apply in_tabulate. exists r. auto.
    + apply in_concat. exists (px r c). split; [|assumption].
      apply in_tabulate. exists c. auto.
Qed.

(** The stacked image of a non-empty raster has a first value. *)
Lemma flatten3_composite_cons (src : Raster) :
  1 <= height src -> 1 <= width src ->
  exists rest,
    flatten3 (tabulate2 (height src) (width src) (composite_bands src)) =
    sample_at src 6 0 0 :: rest.
Proof.
  intros Hh Hw. destruct (height src) as [|h]; [lia|]. destruct (width src) as [|w]; [lia|].
  unfold flatten3, tabulate2. rewrite tabulate_S. cbn [map concat].
  rewrite tabulate_S. cbn [concat composite_bands app]. eexists. reflexivity.
Qed.

(** [get_rgb_image] on a raster with the three bands and at least one pixel:
    no error is shown, and the image is the stacked bands rescaled by the
    minimum and maximum over the whole stack, or all zeros. *)
Lemma get_rgb_image_eq (src : Raster) (ui : UI) :
  7 <= count src -> 1 <= height src -> 1 <= width src ->
  exists rgb_min rgb_max,
    nanmin (flatten3 (tabulate2 (height src) (width src) (composite_bands src)))
      = Some rgb_min /\
    nanmax (flatten3 (tabulate2 (height src) (width src) (composite_bands src)))
      = Some rgb_max /\
    get_rgb_image src ui =
    (ui, Some (tabulate2 (height src) (width src) (fun r c =>
                 map (fun v => if sample_gtb rgb_max rgb_min
                               then sample_div (sample_sub v rgb_min)
                                               (sample_sub rgb_max rgb_min)
                               else Fin 0)
                     (composite_bands src r c)))).
Proof.
  intros Hcount Hh Hw.
  destruct (flatten3_composite_cons src Hh Hw) as [rest Hflat].
  exists (fold_left fmin rest (sample_at src 6 0 0)),
         (fold_left fmax rest (sample_at src 6 0 0)).
  rewrite Hflat. split; [reflexivity|]. split; [reflexivity|].
  unfold get_rgb_image. rewrite !read_band_ok by lia.
  rewrite dstack_tabulate2.
  change (fun r c => [sample_at src (7 - 1) r c; sample_at src (4 - 1) r c;
                      sample_at src (3 - 1) r c]) with (composite_bands src).
  rewrite Hflat. cbn [nanmin nanmax].
  destruct (sample_gtb _ _).
  - now rewrite map3_tabulate2.
  - now rewrite zeros_like_tabulate2.
Qed.

(** ** The whole run *)

Lemma windows_first (h w c : nat) :
  1 <= h -> 1 <= w -> 1 <= c ->
  exists rest, windows h w c = chunk_window h w c 0 0 :: rest.
Proof.
  intros Hh Hw Hc. rewrite windows_row_major.
  assert (Hny : 0 < (h + c - 1) / c) by (apply origins_spec; lia).
  assert (Hnx : 0 < (w + c - 1) / c) by (apply origins_spec; lia).
  destruct ((h + c - 1) / c) as [|ny]; [lia|].
  destruct ((w + c - 1) / c) as [|nx]; [lia|].
  cbn [seq flat_map map app]. eexists. reflexivity.
Qed.

Lemma existsb_in_window_covered (h w c r col : nat) :
  1 <= c -> r < h -> col < w ->
  existsb (fun win => in_window win r col) (windows h w c) = true.
Proof.
  intros Hc Hr Hcol. apply existsb_exists. now apply pixel_covered.
Qed.

(** A raster whose feature samples are all finite passes the validity check
    in every window of the enumeration. *)
Lemma windows_all_valid (src : Raster) (c : nat) :
  2 <= count src -> 1 <= c ->
  (forall b r col, 1 <= b < count src -> r < height src -> col < width src ->
     is_finite (sample_at src b r col) = true) ->
  forall win, In win (windows (height src) (width src) c) ->
    invalid_values (window_features src win) = false.
Proof.
  intros Hcount Hc Hfin win Hin.
  apply invalid_values_false; [assumption|]. intros b i j Hb Hi Hj.
  destruct (window_in_bounds _ _ _ _ Hc Hin) as (_ & _ & _ & _ & _ & Hx & Hy).
  apply Hfin; [assumption | lia | lia].
Qed.

(** A non-finite feature sample makes the window that contains its pixel
    fail the validity check. *)
Lemma windows_some_invalid (src : Raster) (c b r col : nat) :
  2 <= count src -> 1 <= c ->
  1 <= b < count src -> r < height src -> col < width src ->
  is_finite (sample_at src b r col) = false ->
  exists win, In win (windows (height src) (width src) c) /\
              invalid_values (window_features src win) = true.
Proof.
  intros Hcount Hc Hb Hr Hcol Hbad.
  destruct (pixel_covered (height src) (width src) c r col Hc Hr Hcol) as [win [Hin Hpix]].
  exists win. split; [assumption|].
  destruct (invalid_values (window_features src win)) eqn:E; [reflexivity|].
  rewrite invalid_values_false in E by assumption.
  apply in_window_spec in Hpix.
  specialize (E b (r - row_off win) (col - col_off win) Hb ltac:(lia) ltac:(lia)).
  replace (row_off win + (r - row_off win)) with r in E by lia.
  replace (col_off win + (col - col_off win)) with col in E by lia.
  congruence.
Qed.

(** The run on a raster the scaler is fitted for, with finite feature
    samples: the composite image, the surface of the pixels' probabilities
    and the metadata are returned, and the page shows the progress of every
    window and no error. *)
Lemma predict_geotiff_complete (rasterio_open : list byte -> option Raster)
    (model : Classifier) (scaler : Scaler) (uploaded_file : list byte)
    (chunk_size : nat) (ui : UI) (src : Raster) :
  rasterio_open uploaded_file = Some src ->
  11 <= count src -> count src - 1 = n_features_in scaler ->
  1 <= height src -> 1 <= width src -> 1 <= chunk_size ->
  (forall b r col, 1 <= b < count src -> r < height src -> col < width src ->
     is_finite (sample_at src b r col) = true) ->
  exists rgb_image,
    get_rgb_image src ui = (ui, Some rgb_image) /\
    predict_geotiff rasterio_open model scaler uploaded_file chunk_size ui =
    ((ui ++ [ProgressBar 0 1]) ++
       progress_events (total_chunks (height src) (width src) chunk_size) 0
                       (total_chunks (height src) (width src) chunk_size) ++
       [ProgressComplete],
     Some (rgb_image,
           tabulate2 (height src) (width src) (pixel_probability model scaler src),
           meta src)).
Proof.
  intros Hopen Hcount Hn Hh Hw Hc Hfin.
  destruct (get_rgb_image_eq src ui ltac:(lia) Hh Hw) as (lo & hi & _ & _ & Hrgb).
  eexists. split; [exact Hrgb|].
  unfold predict_geotiff. rewrite Hopen.
  replace (count src <? 11) with false by (symmetry; apply Nat.ltb_ge; lia).
  rewrite Hrgb.
  replace (chunk_size =? 0) with false by (symmetry; apply Nat.eqb_neq; lia).
  rewrite zeros_tabulate2.
  rewrite (process_chunks_clean model scaler src (height src) (width src));
    [ | lia | assumption
      | intros win Hin;
        destruct (window_in_bounds _ _ _ _ Hc Hin) as (_ & _ & _ & _ & _ & Hx & Hy);
        split; assumption
      | apply windows_all_valid; [lia | assumption | assumption]
      | rewrite length_windows; lia ].
  rewrite length_windows, <- app_assoc. f_equal. do 3 f_equal.
  apply tabulate2_ext. intros r col Hr Hcol.
  now rewrite existsb_in_window_covered.
Qed.

(** The run on a raster of another feature width than the scaler's, when the
    first window passes the validity check: the scaler rejects the window and
    the run stops with the processing error. *)
Lemma predict_geotiff_mismatch (rasterio_open : list byte -> option Raster)
    (model : Classifier) (scaler : Scaler) (uploaded_file : list byte)
    (chunk_size : nat) (ui : UI) (src : Raster) :
  rasterio_open uploaded_file = Some src ->
  11 <= count src -> count src - 1 <> n_features_in scaler ->
  1 <= height src -> 1 <= width src -> 1 <= chunk_size ->
  invalid_values
    (window_features src (chunk_window (height src) (width src) chunk_size 0 0)) = false ->
  predict_geotiff rasterio_open model scaler uploaded_file chunk_size ui =
  ((ui ++ [ProgressBar 0 1]) ++ [StError ProcessingMsg], None).
Proof.
  intros Hopen Hcount Hn Hh Hw Hc Hvalid.
  destruct (get_rgb_image_eq src ui ltac:(lia) Hh Hw) as (lo & hi & _ & _ & Hrgb).
  unfold predict_geotiff. rewrite Hopen.
  replace (count src <? 11) with false by (symmetry; apply Nat.ltb_ge; lia).
  rewrite Hrgb.
  replace (chunk_size =? 0) with false by (symmetry; apply Nat.eqb_neq; lia).
  destruct (windows_first (height src) (width src) chunk_size Hh Hw Hc) as [rest ->].
  cbn [process_chunks].
  rewrite chunk_probabilities_mismatch by assumption.
  now rewrite Hvalid.
Qed.

(** The run on a raster with fewer than 11 bands. *)
Lemma predict_geotiff_few_bands (rasterio_open : list byte -> option Raster)
    (model : Classifier) (scaler : Scaler) (uploaded_file : list byte)
    (chunk_size : nat) (ui : UI) (src : Raster) :
  rasterio_open uploaded_file = Some src ->
  count src < 11 ->
  predict_geotiff rasterio_open model scaler uploaded_file chunk_size ui =
  (ui ++ [StError (BandCountMsg (count src))], None).
Proof.
  intros Hopen Hcount. unfold predict_geotiff. rewrite Hopen.
  apply Nat.ltb_lt in Hcount. now rewrite Hcount.
Qed.

(** ** Sample inputs *)

Lemma ramp_raster_finite (h w bands b r c : nat) :
  is_finite (sample_at (ramp_raster h w bands) b r c) = true.
Proof. reflexivity. Qed.

Lemma first_feature_ramp_score (h w bands r c : nat) :
  2 <= bands ->
  isnan (decision_row first_feature_classifier
           (scale_row unit_scaler (pixel_features (ramp_raster h w bands) r c))) = false.
Proof.
  intros Hb. unfold pixel_features. cbn [count ramp_raster].
  destruct (bands - 1) as [|m] eqn:E; [lia|]. reflexivity.
Qed.

(** ** Properties of the run *)

Lemma length_concat_shape {A : Type} (h w : nat) (m : list (list A)) :
  has_shape h w m -> length (concat m) = h * w.
Proof.
  intros [Hlen Hrows]. subst h. induction m as [|row m IH]; [reflexivity|].
  inversion Hrows as [|? ? Hrow Hrest]; subst. cbn [concat length].
  rewrite length_app, IH by assumption. lia.
Qed.

(** C2 (amended). For every raster with at least 11 bands whose feature width
    (band count minus one) is the width the scaler is fitted for, with at
    least one pixel, finite feature samples and decision scores that are not
    NaN, and every chunk size of at least 1, the run returns a probability
    surface of shape (height, width), so of height * width entries; each
    entry is the logistic transform of its pixel's decision score, lies in
    [[0, 1]], and is written by exactly one window. *)
Theorem predict_geotiff_surface (rasterio_open : list byte -> option Raster)
    (model : Classifier) (scaler : Scaler) (uploaded_file : list byte)
    (chunk_size : nat) (ui : UI) (src : Raster) :
  rasterio_open uploaded_file = Some src ->
  11 <= count src -> count src - 1 = n_features_in scaler ->
  1 <= height src -> 1 <= width src -> 1 <= chunk_size ->
  (forall b r col, 1 <= b < count src -> r < height src -> col < width src ->
     is_finite (sample_at src b r col) = true) ->
  (forall r col, r < height src -> col < width src ->
     isnan (decision_row model (scale_row scaler (pixel_features src r col))) = false) ->
  exists ui' rgb_image probability_predictions,
    predict_geotiff rasterio_open model scaler uploaded_file chunk_size ui =
      (ui', Some (rgb_image, probability_predictions, meta src)) /\
    has_shape (height src) (width src) probability_predictions /\
    length (concat probability_predictions) = height src * width src /\
    forall r col, r < height src -> col < width src ->
      get2 probability_predictions r col =
        Some (logistic (decision_row model (scale_row scaler (pixel_features src r col)))) /\
      in_unit (logistic (decision_row model (scale_row scaler (pixel_features src r col)))) /\
      length (filter (fun win => in_window win r col)
                     (windows (height src) (width src) chunk_size)) = 1.
Proof.
  intros Hopen Hcount Hn Hh Hw Hc Hfin Hscore.
  destruct (predict_geotiff_complete rasterio_open model scaler uploaded_file
              chunk_size ui src Hopen Hcount Hn Hh Hw Hc Hfin) as [rgb [_ Hrun]].
  eexists. exists rgb. eexists. split; [exact Hrun|].
  split; [apply has_shape_tabulate2|].
  split; [apply length_concat_shape, has_shape_tabulate2|].
  intros r col Hr Hcol. split; [|split].
  - rewrite get2_tabulate2.
    apply Nat.ltb_lt in Hr, Hcol. now rewrite Hr, Hcol.
  - apply logistic_in_unit. now apply Hscore.
  - now apply pixel_in_one_window.
Qed.

Lemma predict_geotiff_surface_witness :
  exists ui' rgb_image probability_predictions,
    predict_geotiff (opens_as (ramp_raster 3 5 11)) first_feature_classifier unit_scaler
                    [] 2 [] =
      (ui', Some (rgb_image, probability_predictions, meta (ramp_raster 3 5 11))) /\
    length (concat probability_predictions) = 3 * 5.
Proof.
  destruct (predict_geotiff_surface (opens_as (ramp_raster 3 5 11))
              first_feature_classifier unit_scaler [] 2 [] (ramp_raster 3 5 11))
    as (ui' & rgb & surf & Hrun & _ & Hlen & _).
  - reflexivity.
  - simpl; lia.
  - reflexivity.
  - simpl; lia.
  - simpl; lia.
  - lia.
  - intros; apply ramp_raster_finite.
  - intros; apply first_feature_ramp_score; lia.
  - exists ui', rgb, surf. split; [exact Hrun | exact Hlen].
Defined.

(** C2 as stated fails: a 12-band raster with finite samples is accepted by
    the band-count check, but its feature vectors have 11 values and the
    scaler fitted on 10 rejects them, so no surface is returned. *)
Lemma predict_geotiff_surface_counterexample :
  11 <= count (ramp_raster 2 2 12) /\
  (forall b r col, is_finite (sample_at (ramp_raster 2 2 12) b r col) = true) /\
  n_features_in unit_scaler = 10 /\
  snd (predict_geotiff (opens_as (ramp_raster 2 2 12)) first_feature_classifier
         unit_scaler [] 256 []) = None.
Proof.
  split; [simpl; lia|]. split; [intros; apply ramp_raster_finite|].
  split; [reflexivity|].
  rewrite (predict_geotiff_mismatch (opens_as (ramp_raster 2 2 12))
             first_feature_classifier unit_scaler [] 256 [] (ramp_raster 2 2 12)).
  - reflexivity.
  - reflexivity.
  - simpl; lia.
  - simpl; lia.
  - simpl; lia.
  - simpl; lia.
  - lia.
  - apply invalid_values_false; [simpl; lia|]. intros. apply ramp_raster_finite.
Qed.

(** C3 (amended). For every raster the run accepts (at least 11 bands) and
    every window, the matrix passed to the scaler has the raster's dtype (no
    cast is applied) and band count minus one columns; its rows are the
    feature vectors of the window's pixels in row-major order, and the
    feature vector of a pixel consists of that pixel's values in bands 2 up
    to the last band, in band order.  Its length is 10 exactly when the
    raster has 11 bands. *)
Theorem window_features_spec (src : Raster) (win : Window) :
  11 <= count src ->
  mat_dtype (window_features src win) = dtypes src /\
  mat_cols (window_features src win) = count src - 1 /\
  mat_rows (window_features src win) =
    tabulate (win_height win * win_width win)
      (fun k => pixel_features src (row_off win + k / win_width win)
                                   (col_off win + k mod win_width win)) /\
  (forall r c,
     length (pixel_features src r c) = count src - 1 /\
     forall i, i < count src - 1 ->
       nth_error (pixel_features src r c) i = Some (sample_at src (i + 1) r c)) /\
  (forall row, In row (mat_rows (window_features src win)) ->
     length row = count src - 1 /\ (length row = 10 <-> count src = 11)).
Proof.
  intros Hcount. split; [reflexivity|]. split; [reflexivity|].
  split; [apply window_features_rows; lia|]. split.
  - intros r c. split; [apply pixel_features_length|].
    intros i Hi. unfold pixel_features.
    rewrite nth_error_map, nth_error_seq.
    apply Nat.ltb_lt in Hi. rewrite Hi. cbn [option_map]. do 2 f_equal. lia.
  - intros row Hrow. rewrite window_features_rows in Hrow by lia.
    apply in_tabulate in Hrow. destruct Hrow as [k [_ ->]].
    rewrite pixel_features_length. split; [reflexivity | lia].
Qed.

Lemma window_features_spec_witness :
  11 <= count (ramp_raster 3 5 11) /\
  mat_cols (window_features (ramp_raster 3 5 11) (chunk_window 3 5 2 4 2)) = 10.
Proof.
  split; [simpl; lia|].
  apply (window_features_spec (ramp_raster 3 5 11) (chunk_window 3 5 2 4 2)).
  simpl; lia.
Defined.

(** C3 as stated fails: on a 12-band raster of dtype int16 the matrix passed
    to the scaler has dtype int16 and feature vectors of 11 values. *)
Lemma window_features_spec_counterexample :
  11 <= count (ramp_raster 2 2 12) /\
  mat_dtype (window_features (ramp_raster 2 2 12) (chunk_window 2 2 256 0 0)) <> float32 /\
  Forall (fun row => length row = 11)
         (mat_rows (window_features (ramp_raster 2 2 12) (chunk_window 2 2 256 0 0))) /\
  mat_rows (window_features (ramp_raster 2 2 12) (chunk_window 2 2 256 0 0)) <> [].
Proof.
  split; [simpl; lia|]. split; [discriminate|].
  split; [repeat constructor | discriminate].
Qed.




(** C5. For every raster with fewer than 11 bands the run shows the
    band-count error and returns no surface; nothing else is shown, so the
    check fails before the composite image, the surface or any progress
    report is created. *)
Theorem band_count_abort (rasterio_open : list byte -> option Raster)
    (model : Classifier) (scaler : Scaler) (uploaded_file : list byte)
    (chunk_size : nat) (ui : UI) (src : Raster) :
  rasterio_open uploaded_file = Some src ->
  count src < 11 ->
  predict_geotiff rasterio_open model scaler uploaded_file chunk_size ui =
    (ui ++ [StError (BandCountMsg (count src))], None) /\
  last_error (fst (predict_geotiff rasterio_open model scaler uploaded_file chunk_size ui))
    = Some (BandCountMsg (count src)).
Proof.
  intros Hopen Hcount.
  rewrite (predict_geotiff_few_bands rasterio_open model scaler uploaded_file
             chunk_size ui src Hopen Hcount).
  split; [reflexivity | apply last_error_app].
Qed.

Lemma band_count_abort_witness :
  predict_geotiff (opens_as (ramp_raster 3 5 10)) first_feature_classifier unit_scaler
                  [] 256 [] =
  ([StError (BandCountMsg 10)], None).
Proof.
  apply (band_count_abort (opens_as (ramp_raster 3 5 10)) first_feature_classifier
           unit_scaler [] 256 [] (ramp_raster 3 5 10)).
  - reflexivity.
  - simpl; lia.
Defined.

(** C10. For every raster whose NaN or infinite values all lie in band 1 and
    which the run otherwise accepts (at least 11 bands, one more than the
    scaler's width, at least one pixel; chunk size at least 1), the run
    completes: it shows no error and returns the full surface of the pixels'
    probabilities, which the values of band 1 do not enter. *)
Theorem first_band_not_checked (rasterio_open : list byte -> option Raster)
    (model : Classifier) (scaler : Scaler) (uploaded_file : list byte)
    (chunk_size : nat) (ui : UI) (src : Raster) :
  rasterio_open uploaded_file = Some src ->
  11 <= count src -> count src - 1 = n_features_in scaler ->
  1 <= height src -> 1 <= width src -> 1 <= chunk_size ->
  (forall b r col, b < count src -> r < height src -> col < width src ->
     is_finite (sample_at src b r col) = false -> b = 0) ->
  exists ui' rgb_image probability_predictions,
    predict_geotiff rasterio_open model scaler uploaded_file chunk_size ui =
      (ui ++ ui', Some (rgb_image, probability_predictions, meta src)) /\
    (forall m, ~ In (StError m) ui') /\
    has_shape (height src) (width src) probability_predictions /\
    (forall r col, r < height src -> col < width src ->
       get2 probability_predictions r col = Some (pixel_probability model scaler src r col)) /\
    (forall v r col,
       pixel_probability model scaler (with_sample src 0 r col v) r col =
       pixel_probability model scaler src r col).
Proof.
  intros Hopen Hcount Hn Hh Hw Hc Hband.
  destruct (predict_geotiff_complete rasterio_open model scaler uploaded_file
              chunk_size ui src Hopen Hcount Hn Hh Hw Hc) as [rgb [_ Hrun]].
  { intros b r col Hb Hr Hcol.
    destruct (is_finite (sample_at src b r col)) eqn:E; [reflexivity|].
    specialize (Hband b r col ltac:(lia) Hr Hcol E). lia. }
  eexists. exists rgb. eexists. split.
  - rewrite Hrun. rewrite <- app_assoc. reflexivity.
  - split; [|split; [apply has_shape_tabulate2|split]].
    + intros m Hin. apply in_app_iff in Hin. destruct Hin as [[Hin|[]]|Hin];
        [discriminate|].
      apply in_app_iff in Hin. destruct Hin as [Hin|[Hin|[]]]; [|discriminate].
      unfold progress_events in Hin. apply in_flat_map in Hin.
      destruct Hin as [k [_ [Hk|[Hk|[]]]]]; discriminate.
    + intros r col Hr Hcol. rewrite get2_tabulate2.
      apply Nat.ltb_lt in Hr, Hcol. now rewrite Hr, Hcol.
    + intros v r col. unfold pixel_probability, pixel_features. do 3 f_equal.
      apply map_ext_in. intros b Hb. apply in_seq in Hb. cbn [sample_at with_sample].
      replace (b =? 0) with false by (symmetry; apply Nat.eqb_neq; lia). reflexivity.
Qed.

Lemma first_band_not_checked_witness :
  exists ui' rgb_image probability_predictions,
    predict_geotiff (opens_as (with_sample (ramp_raster 3 5 11) 0 1 4 NaN))
                    first_feature_classifier unit_scaler [] 2 [] =
      ([] ++ ui', Some (rgb_image, probability_predictions,
                        meta (with_sample (ramp_raster 3 5 11) 0 1 4 NaN))) /\
    has_shape 3 5 probability_predictions.
Proof.
  destruct (first_band_not_checked
              (opens_as (with_sample (ramp_raster 3 5 11) 0 1 4 NaN))
              first_feature_classifier unit_scaler [] 2 []
              (with_sample (ramp_raster 3 5 11) 0 1 4 NaN))
    as (ui' & rgb & surf & Hrun & _ & Hshape & _).
  - reflexivity.
  - simpl; lia.
  - reflexivity.
  - simpl; lia.
  - simpl; lia.
  - lia.
  - intros b r col _ _ _. cbn [sample_at with_sample ramp_raster].
    destruct b as [|b]; [reflexivity|]. intros H. discriminate H.
  - exists ui', rgb, surf. split; [exact Hrun | exact Hshape].
Defined.

(** ** Rescaling between a minimum and a maximum *)



(** ** Risk statistics *)

Lemma count_binary (g : sample -> bool) (xs : list sample) :
  length (filter (Nat.eqb 1) (map (fun p => if g p then 1 else 0) xs)) =
    length (filter g xs) /\
  length (filter (Nat.eqb 0) (map (fun p => if g p then 1 else 0) xs)) =
    length (filter (fun p => negb (g p)) xs) /\
  length (filter g xs) + length (filter (fun p => negb (g p)) xs) = length xs.
Proof.
  induction xs as [|x xs (IH1 & IH0 & IH)]; [repeat split|].
  cbn [map filter]. destruct (g x).
  - change (1 =? 1) with true. change (0 =? 1) with false. cbn [negb length].
    rewrite IH1, IH0. repeat split; lia.
  - change (1 =? 0) with false. change (0 =? 0) with true. cbn [negb length].
    rewrite IH1, IH0. repeat split; lia.
Qed.

Lemma percentage_fin (k total : nat) :
  0 < total -> percentage k total = Fin (INR k / INR total * 100).
Proof.
  intros Hpos. unfold percentage.
  rewrite sample_div_fin by (apply not_0_INR; lia). reflexivity.
Qed.

(** A surface of probability 0.3 everywhere at threshold 0.5: no pixel is
    high-risk, 0 percent against 100 percent. *)
Example risk_statistics_all_low :
  risk_statistics (tabulate2 2 2 (fun _ _ => Fin (3 / 10))) (1 / 2) =
  mkRiskStatistics 0 4 4 (Fin 0) (Fin 100).
Proof.
  unfold risk_statistics, count_equal, binary_predictions.
  cbn [tabulate2 tabulate seq map concat app sample_geb sample_leb].
  rewrite Rle_bool_false by lra.
  cbn [filter Nat.eqb length Nat.add].
  rewrite !percentage_fin by lia. do 2 f_equal; simpl; field.
Qed.

(** C8. For every surface of shape (height, width) and every threshold, the
    high-risk count is the number of pixels with probability at least the
    threshold, the low-risk count the number of the others, the two add up to
    height * width, which is the total the percentages are taken over, and on
    a surface with at least one pixel the two percentages are
    [count / total * 100] and add up to 100 (as real numbers). *)
Theorem risk_statistics_consistent (probability_predictions : Array2) (h w : nat)
    (threshold : R) :
  has_shape h w probability_predictions ->
  let stats := risk_statistics probability_predictions threshold in
  high_risk_count stats =
    length (filter (fun p => sample_geb p (Fin threshold)) (concat probability_predictions)) /\
  low_risk_count stats =
    length (filter (fun p => negb (sample_geb p (Fin threshold)))
                   (concat probability_predictions)) /\
  high_risk_count stats + low_risk_count stats = h * w /\
  total_pixels stats = h * w /\
  (0 < h * w ->
   high_risk_percentage stats = Fin (INR (high_risk_count stats) / INR (h * w) * 100) /\
   low_risk_percentage stats = Fin (INR (low_risk_count stats) / INR (h * w) * 100) /\
   (INR (high_risk_count stats) / INR (h * w) * 100 +
    INR (low_risk_count stats) / INR (h * w) * 100 = 100)%R).
Proof.
  intros Hshape. cbv zeta. unfold risk_statistics.
  cbn [high_risk_count low_risk_count total_pixels high_risk_percentage low_risk_percentage].
  unfold count_equal, binary_predictions. rewrite <- concat_map.
  destruct (count_binary (fun p => sample_geb p (Fin threshold))
              (concat probability_predictions)) as (H1 & H0 & Hsum).
  rewrite H1, H0, Hsum, (length_concat_shape h w _ Hshape).
  repeat split. 
  - now apply percentage_fin.
  - now apply percentage_fin.
  - assert (HR : (INR (length (filter (fun p => sample_geb p (Fin threshold))
                                 (concat probability_predictions))) +
                  INR (length (filter (fun p => negb (sample_geb p (Fin threshold)))
                                 (concat probability_predictions))) = INR (h * w))%R).
    { rewrite <- plus_INR, Hsum. now rewrite (length_concat_shape h w _ Hshape). }
    assert (Hne : INR (h * w) <> 0%R) by (apply not_0_INR; lia).
    rewrite <- HR in *. field. assumption.
Qed.

Lemma risk_statistics_consistent_witness :
  high_risk_count (risk_statistics [[Fin (3 / 10); Fin (7 / 10)];
                                    [Fin (1 / 2); Fin 0]] (1 / 2)) +
  low_risk_count (risk_statistics [[Fin (3 / 10); Fin (7 / 10)];
                                   [Fin (1 / 2); Fin 0]] (1 / 2)) = 2 * 2.
Proof.
  apply (risk_statistics_consistent [[Fin (3 / 10); Fin (7 / 10)]; [Fin (1 / 2); Fin 0]]
           2 2 (1 / 2)).
  split; [reflexivity|]. repeat constructor.
Defined.

(** ** The overlay *)

Lemma nth_error_combine_some {A B : Type} (l : list A) (l' : list B) (n : nat) (a : A) (b : B) :
  nth_error l n = Some a -> nth_error l' n = Some b ->
  nth_error (combine l l') n = Some (a, b).
Proof.
  revert l l'. induction n as [|n IH]; intros [|x l] [|y l'] Ha Hb; try discriminate.
  - simpl in *. congruence.
  - simpl in *. now apply IH.
Qed.

Lemma get2_map_map {A B : Type} (f : A -> B) (m : list (list A)) (r c : nat) :
  get2 (map (map f) m) r c = option_map f (get2 m r c).
Proof.
  unfold get2. rewrite nth_error_map.
  destruct (nth_error m r) as [row|]; [|reflexivity].
  cbn [option_map]. now rewrite nth_error_map.
Qed.

Lemma get2_blend_masked (alpha : R) (img : Array3) (msk : list (list bool))
    (r c : nat) (px : list sample) (b : bool) :
  get2 img r c = Some px -> get2 msk r c = Some b ->
  get2 (blend_masked alpha img msk) r c = Some (if b then blend alpha px else px).
Proof.
  unfold get2, blend_masked. intros Hpx Hb.
  destruct (nth_error img r) as [irow|] eqn:Hi; [|discriminate].
  destruct (nth_error msk r) as [mrow|] eqn:Hm; [|discriminate].
  rewrite nth_error_map, (nth_error_combine_some img msk r irow mrow Hi Hm).
  cbn [option_map fst snd].
  rewrite nth_error_map, (nth_error_combine_some irow mrow c px b Hpx Hb).
  reflexivity.
Qed.

Lemma has_shape_mask (h w : nat) (probs : Array2) (threshold : R) :
  has_shape h w probs -> has_shape h w (mask probs threshold).
Proof.
  intros [Hlen Hrows]. unfold mask. split; [now rewrite length_map|].
  apply Forall_forall. intros row Hrow. apply in_map_iff in Hrow.
  destruct Hrow as [prow [<- Hin]]. rewrite length_map.
  rewrite Forall_forall in Hrows. now apply Hrows.
Qed.

Lemma has_shape_blend_masked (h w : nat) (alpha : R) (img : Array3)
    (msk : list (list bool)) :
  has_shape h w img -> has_shape h w msk -> has_shape h w (blend_masked alpha img msk).
Proof.
  intros [Hli Hri] [Hlm Hrm]. unfold blend_masked. split.
  - rewrite length_map, length_combine. lia.
  - apply Forall_forall. intros row Hrow. apply in_map_iff in Hrow.
    destruct Hrow as [[irow mrow] [<- Hin]]. cbn [fst snd].
    rewrite length_map, length_combine.
    rewrite Forall_forall in Hri, Hrm.
    rewrite (Hri irow) by (eapply in_combine_l; eauto).
    rewrite (Hrm mrow) by (eapply in_combine_r; eauto). lia.
Qed.

Lemma overlay_shapes_ok_true (h w : nat) (img : Array3) (msk : list (list bool)) :
  has_shape h w img -> has_shape h w msk ->
  (forall row px, In row img -> In px row -> length px = 3) ->
  overlay_shapes_ok img msk = true.
Proof.
  intros [Hli Hri] [Hlm Hrm] Hch. unfold overlay_shapes_ok.
  apply andb_true_iff. split; [apply Nat.eqb_eq; lia|].
  apply forallb_forall. intros [irow mrow] Hin. cbn [fst snd].
  rewrite Forall_forall in Hri, Hrm.
  apply andb_true_iff. split.
  - apply Nat.eqb_eq.
    rewrite (Hri irow) by (eapply in_combine_l; eauto).
    rewrite (Hrm mrow) by (eapply in_combine_r; eauto). reflexivity.
  - apply forallb_forall. intros px Hpx. apply Nat.eqb_eq.
    apply (Hch irow); [eapply in_combine_l; eauto | assumption].
Qed.

Lemma heap_get_alloc (hp : heap) (v : ndarray) :
  heap_get (fst (heap_alloc hp v)) (snd (heap_alloc hp v)) = Some v.
Proof.
  unfold heap_get, heap_alloc. cbn [fst snd].
  rewrite nth_error_app2 by lia. now rewrite Nat.sub_diag.
Qed.

Lemma heap_set_last (hp : heap) (v v' : ndarray) :
  heap_set (hp ++ [v]) (length hp) v' = hp ++ [v'].
Proof.
  unfold heap_set. rewrite firstn_app, firstn_all, Nat.sub_diag.
  rewrite skipn_all2 by (rewrite length_app; simpl; lia).
  simpl. now rewrite app_nil_r.
Qed.

Lemma heap_get_old (hp : heap) (v : ndarray) (l : loc) :
  l < length hp -> heap_get (hp ++ [v]) l = heap_get hp l.
Proof. intros Hl. unfold heap_get. now apply nth_error_app1. Qed.

Lemma heap_get_valid (hp : heap) (l : loc) (v : ndarray) :
  heap_get hp l = Some v -> l < length hp.
Proof. intros H. apply nth_error_Some. unfold heap_get in H. congruence. Qed.

Lemma blend_finite (alpha x1 x2 x3 : R) :
  blend alpha [Fin x1; Fin x2; Fin x3] =
  [Fin ((1 - alpha) * x1 + alpha * 1);
   Fin ((1 - alpha) * x2 + alpha * 0);
   Fin ((1 - alpha) * x3 + alpha * 0)].
Proof. reflexivity. Qed.

(** C9. For a composite image and a probability surface of one shape, every
    threshold and every opacity, the overlay is a new array of that shape; at
    each pixel whose probability is at least the threshold it holds
    [(1 - alpha) * original + alpha * highlight] with the highlight colour
    (1, 0, 0), at every other pixel the original value.  The composite image
    and the probability surface, and every other array of the store, are the
    same after the overlay is computed, and the overlay is determined by the
    two arrays, the threshold and the opacity alone. *)
Theorem overlay_blend (hp : heap) (rgb_image probability_predictions : loc)
    (img : Array3) (probs : Array2) (h w : nat) (threshold alpha : R) :
  heap_get hp rgb_image = Some (Image img) ->
  heap_get hp probability_predictions = Some (Grid probs) ->
  has_shape h w img ->
  (forall row px, In row img -> In px row -> length px = 3) ->
  has_shape h w probs ->
  exists hp' result,
    overlay hp rgb_image probability_predictions threshold alpha =
      Some (hp', length hp) /\
    heap_get hp (length hp) = None /\
    heap_get hp' (length hp) = Some (Image result) /\
    result = blend_masked alpha img (mask probs threshold) /\
    has_shape h w result /\
    (forall r c px p, get2 img r c = Some px -> get2 probs r c = Some p ->
       get2 result r c =
       Some (if sample_geb p (Fin threshold) then blend alpha px else px)) /\
    (forall x1 x2 x3,
       blend alpha [Fin x1; Fin x2; Fin x3] =
       [Fin ((1 - alpha) * x1 + alpha * 1);
        Fin ((1 - alpha) * x2 + alpha * 0);
        Fin ((1 - alpha) * x3 + alpha * 0)]) /\
    heap_get hp' rgb_image = Some (Image img) /\
    heap_get hp' probability_predictions = Some (Grid probs) /\
    (forall l, l < length hp -> heap_get hp' l = heap_get hp l).
Proof.
  intros Hrgb Hprob Hshape Hch Hpshape.
  pose proof (has_shape_mask h w probs threshold Hpshape) as Hmask.
  exists (hp ++ [Image (blend_masked alpha img (mask probs threshold))]),
         (blend_masked alpha img (mask probs threshold)).
  split.
  - unfold overlay. rewrite Hrgb, Hprob. cbn [heap_alloc].
    pose proof (heap_get_alloc hp (Image img)) as Hnew. cbn [heap_alloc fst snd] in Hnew.
    rewrite Hnew, (overlay_shapes_ok_true h w img _ Hshape Hmask Hch).
    now rewrite heap_set_last.
  - split; [apply nth_error_None; unfold heap; lia|].
    split; [unfold heap_get; rewrite nth_error_app2 by lia; now rewrite Nat.sub_diag|].
    split; [reflexivity|].
    split; [now apply has_shape_blend_masked|].
    split.
    + intros r c px p Hpx Hp. apply get2_blend_masked; [assumption|].
      unfold mask. rewrite get2_map_map, Hp. reflexivity.
    + split; [intros; apply blend_finite|].
      split; [rewrite heap_get_old; [assumption | eapply heap_get_valid; eauto]|].
      split; [rewrite heap_get_old; [assumption | eapply heap_get_valid; eauto]|].
      intros l Hl. now apply heap_get_old.
Qed.

Lemma overlay_blend_witness :
  exists hp' result,
    overlay [Image [[[Fin (1 / 4); Fin (1 / 2); Fin 1]; [Fin 0; Fin 0; Fin 0]]];
             Grid [[Fin (9 / 10); Fin (1 / 10)]]] 0 1 (1 / 2) (1 / 2) = Some (hp', 2) /\
    heap_get hp' 2 = Some (Image result) /\
    heap_get hp' 0 = Some (Image [[[Fin (1 / 4); Fin (1 / 2); Fin 1]; [Fin 0; Fin 0; Fin 0]]]).
Proof.
  destruct (overlay_blend
              [Image [[[Fin (1 / 4); Fin (1 / 2); Fin 1]; [Fin 0; Fin 0; Fin 0]]];
               Grid [[Fin (9 / 10); Fin (1 / 10)]]] 0 1
              [[[Fin (1 / 4); Fin (1 / 2); Fin 1]; [Fin 0; Fin 0; Fin 0]]]
              [[Fin (9 / 10); Fin (1 / 10)]] 1 2 (1 / 2) (1 / 2))
    as (hp' & result & Hrun & _ & Hov & _ & _ & _ & _ & Hrgb & _).
  - reflexivity.
  - reflexivity.
  - split; [reflexivity | repeat constructor].
  - intros row px [<-|[]] [<-|[<-|[]]]; reflexivity.
  - split; [reflexivity | repeat constructor].
  - exists hp', result. repeat split; assumption.
Defined.

(* ------------------------------------------------------------------------- *)
(** * Further properties of the run *)
(* ------------------------------------------------------------------------- *)

(** ** When the compositor fails *)

Lemma flatten3_empty (h w : nat) (px : nat -> nat -> list sample) :
  h = 0 \/ w = 0 -> flatten3 (tabulate2 h w px) = [].
Proof.
  intros Hz.
  destruct (flatten3 (tabulate2 h w px)) as [|v rest] eqn:E; [reflexivity|].
  assert (Hin : In v (flatten3 (tabulate2 h w px))) by (rewrite E; now left).
  apply in_flatten3_tabulate2 in Hin. destruct Hin as (r & c & Hr & Hc & _). lia.
Qed.

Lemma get_rgb_image_few_bands (src : Raster) (ui : UI) :
  count src < 7 -> get_rgb_image src ui = (ui ++ [StError RgbImageMsg], None).
Proof.
  intros Hcount. unfold get_rgb_image, read_band at 1.
  replace (7 <=? count src) with false by (symmetry; apply Nat.leb_gt; lia).
  reflexivity.
Qed.

Lemma get_rgb_image_no_pixel (src : Raster) (ui : UI) :
  7 <= count src -> height src = 0 \/ width src = 0 ->
  get_rgb_image src ui = (ui ++ [StError RgbImageMsg], None).
Proof.
  intros Hcount Hz. unfold get_rgb_image. rewrite !read_band_ok by lia.
  rewrite dstack_tabulate2, flatten3_empty by assumption. reflexivity.
Qed.

(** X1. The compositor fails exactly on a raster with fewer than 7 bands or
    without pixels: it then shows its error once and returns nothing;
    otherwise it returns an image and leaves the page as it was. *)
Theorem get_rgb_image_failure (src : Raster) (ui : UI) :
  (snd (get_rgb_image src ui) = None <->
   count src < 7 \/ height src = 0 \/ width src = 0) /\
  (snd (get_rgb_image src ui) = None ->
   get_rgb_image src ui = (ui ++ [StError RgbImageMsg], None)) /\
  (snd (get_rgb_image src ui) <> None -> fst (get_rgb_image src ui) = ui).
Proof.
  assert (Hfail : count src < 7 \/ height src = 0 \/ width src = 0 ->
            get_rgb_image src ui = (ui ++ [StError RgbImageMsg], None)).
  { intros [Hfew|Hz].
    - now apply get_rgb_image_few_bands.
    - destruct (Nat.lt_ge_cases (count src) 7) as [Hfew|Hcount].
      + now apply get_rgb_image_few_bands.
      + now apply get_rgb_image_no_pixel. }
  destruct (Nat.lt_ge_cases (count src) 7) as [Hfew|Hcount];
    [|destruct (Nat.eq_dec (height src) 0) as [Hh|Hh];
      [|destruct (Nat.eq_dec (width src) 0) as [Hw|Hw]]].
  1-3: rewrite Hfail by tauto; cbn [fst snd];
       (split; [split; [tauto | reflexivity] | split; [reflexivity | intros H; now contradiction H]]).
  destruct (get_rgb_image_eq src ui Hcount ltac:(lia) ltac:(lia))
    as (lo & hi & _ & _ & ->).
  cbn [fst snd]. split; [split; [discriminate | lia]|].
  split; [discriminate | reflexivity].
Qed.

(** ** Exactly when the run returns a surface *)

(** A non-finite feature sample leaves the run without a result. *)
Lemma predict_geotiff_invalid_none (rasterio_open : list byte -> option Raster)
    (model : Classifier) (scaler : Scaler) (uploaded_file : list byte)
    (chunk_size : nat) (ui : UI) (src : Raster) (b r col : nat) :
  rasterio_open uploaded_file = Some src ->
  1 <= b < count src -> r < height src -> col < width src ->
  is_finite (sample_at src b r col) = false ->
  snd (predict_geotiff rasterio_open model scaler uploaded_file chunk_size ui) = None.
Proof.
  intros Hopen Hb Hr Hcol Hbad.
  unfold predict_geotiff. rewrite Hopen.
  destruct (count src <? 11) eqn:Hcount; [reflexivity|].
  apply Nat.ltb_ge in Hcount.
  destruct (get_rgb_image src ui) as [ui1 [rgb|]]; [|reflexivity].
  destruct (chunk_size =? 0) eqn:Hc; [reflexivity|].
  apply Nat.eqb_neq in Hc.
  pose proof (process_chunks_invalid_none model scaler src
                (total_chunks (height src) (width src) chunk_size)
                (windows (height src) (width src) chunk_size)
                (windows_some_invalid src chunk_size b r col ltac:(lia) ltac:(lia)
                   Hb Hr Hcol Hbad)
                0 (zeros (height src) (width src)) (ui1 ++ [ProgressBar 0 1])) as Hnone.
  destruct (process_chunks _ _ _ _ _ _ _ _) as [ui2 [surf|]];
    [discriminate | reflexivity].
Qed.

(** A run that returns something got through every check. *)
Lemma predict_geotiff_some_inv (rasterio_open : list byte -> option Raster)
    (model : Classifier) (scaler : Scaler) (uploaded_file : list byte)
    (chunk_size : nat) (ui : UI) (src : Raster) :
  rasterio_open uploaded_file = Some src ->
  snd (predict_geotiff rasterio_open model scaler uploaded_file chunk_size ui) <> None ->
  11 <= count src /\ 1 <= height src /\ 1 <= width src /\ 1 <= chunk_size /\
  count src - 1 = n_features_in scaler /\
  (forall b r col, 1 <= b < count src -> r < height src -> col < width src ->
     is_finite (sample_at src b r col) = true).
Proof.
  intros Hopen Hsome.
  assert (Hcount : 11 <= count src).
  { destruct (Nat.lt_ge_cases (count src) 11) as [Hlt|Hge]; [|assumption].
    rewrite (predict_geotiff_few_bands _ _ _ _ _ _ src Hopen Hlt) in Hsome.
    now contradiction Hsome. }
  assert (Hfin : forall b r col, 1 <= b < count src -> r < height src -> col < width src ->
            is_finite (sample_at src b r col) = true).
  { intros b r col Hb Hr Hcol.
    destruct (is_finite (sample_at src b r col)) eqn:E; [reflexivity|].
    exfalso. apply Hsome.
    apply (predict_geotiff_invalid_none rasterio_open model scaler uploaded_file
             chunk_size ui src b r col); assumption. }
  unfold predict_geotiff in Hsome. rewrite Hopen in Hsome.
  replace (count src <? 11) with false in Hsome by (symmetry; apply Nat.ltb_ge; lia).
  destruct (Nat.eq_dec (height src) 0) as [Hh|Hh];
    [rewrite get_rgb_image_no_pixel in Hsome by (lia || tauto); now contradiction Hsome|].
  destruct (Nat.eq_dec (width src) 0) as [Hw|Hw];
    [rewrite get_rgb_image_no_pixel in Hsome by (lia || tauto); now contradiction Hsome|].
  destruct (get_rgb_image_eq src ui ltac:(lia) ltac:(lia) ltac:(lia))
    as (lo & hi & _ & _ & Hrgb).
  rewrite Hrgb in Hsome.
  destruct (chunk_size =? 0) eqn:Hc; [now contradiction Hsome|].
  apply Nat.eqb_neq in Hc.
  repeat split; try lia; try assumption.
  destruct (Nat.eq_dec (count src - 1) (n_features_in scaler)) as [Hn|Hn]; [assumption|].
  exfalso. apply Hsome.
  destruct (windows_first (height src) (width src) chunk_size) as [rest ->]; try lia.
  cbn [process_chunks]. rewrite chunk_probabilities_mismatch by assumption.
  destruct (invalid_values _); reflexivity.
Qed.



(** X3. The result of the run does not depend on the chunk size, as long as
    it is at least 1: the same composite, surface and metadata, or the same
    failure, for every tiling. *)
Theorem predict_geotiff_chunk_size_irrelevant (rasterio_open : list byte -> option Raster)
    (model : Classifier) (scaler : Scaler) (uploaded_file : list byte)
    (c1 c2 : nat) (ui : UI) :
  1 <= c1 -> 1 <= c2 ->
  snd (predict_geotiff rasterio_open model scaler uploaded_file c1 ui) =
  snd (predict_geotiff rasterio_open model scaler uploaded_file c2 ui).
Proof.
  intros H1 H2.
  destruct (rasterio_open uploaded_file) as [src|] eqn:Hopen;
    [|unfold predict_geotiff; rewrite Hopen; reflexivity].
  assert (Hmove : forall c c',
            1 <= c' ->
            snd (predict_geotiff rasterio_open model scaler uploaded_file c ui) <> None ->
            snd (predict_geotiff rasterio_open model scaler uploaded_file c' ui) =
            snd (predict_geotiff rasterio_open model scaler uploaded_file c ui)).
  { intros c c' Hc' Hsome.
    destruct (predict_geotiff_some_inv rasterio_open model scaler uploaded_file
                c ui src Hopen Hsome) as (Hcount & Hh & Hw & Hc & Hn & Hfin).
    destruct (predict_geotiff_complete rasterio_open model scaler uploaded_file
                c ui src Hopen Hcount Hn Hh Hw Hc Hfin) as [rgb [Hrgb ->]].
    destruct (predict_geotiff_complete rasterio_open model scaler uploaded_file
                c' ui src Hopen Hcount Hn Hh Hw Hc' Hfin) as [rgb' [Hrgb' ->]].
    rewrite Hrgb in Hrgb'. injection Hrgb' as <-. reflexivity. }
  destruct (snd (predict_geotiff rasterio_open model scaler uploaded_file c1 ui))
    as [res1|] eqn:E1.
  - rewrite <- E1. symmetry. apply Hmove; [assumption | rewrite E1; discriminate].
  - destruct (snd (predict_geotiff rasterio_open model scaler uploaded_file c2 ui))
      as [res2|] eqn:E2; [|reflexivity].
    rewrite <- E1, <- E2. apply Hmove; [assumption | rewrite E2; discriminate].
Qed.

Lemma predict_geotiff_chunk_size_irrelevant_witness :
  snd (predict_geotiff (opens_as (ramp_raster 3 5 11)) first_feature_classifier
         unit_scaler [] 2 []) =
  snd (predict_geotiff (opens_as (ramp_raster 3 5 11)) first_feature_classifier
         unit_scaler [] 256 []).
Proof.
  apply (predict_geotiff_chunk_size_irrelevant (opens_as (ramp_raster 3 5 11))
           first_feature_classifier unit_scaler [] 2 256 []); lia.
Defined.

(** ** Where the loop stops *)

Lemma process_chunks_first_invalid (model : Classifier) (scaler : Scaler) (src : Raster)
    (h w total : nat) (bad : Window) (post : list Window) :
  2 <= count src -> count src - 1 = n_features_in scaler ->
  invalid_values (window_features src bad) = true ->
  forall (pre : list Window) (k : nat) (f : nat -> nat -> sample) (ui : UI),
    (forall win, In win pre -> window_inside h w win) ->
    (forall win, In win pre -> invalid_values (window_features src win) = false) ->
    k + length pre < total ->
    process_chunks model scaler src total (pre ++ bad :: post) k (tabulate2 h w f) ui =
    (ui ++ progress_events total k (length pre) ++ [StError InvalidValuesMsg], None).
Proof.
  intros Hcount Hn Hbad pre. induction pre as [|win rest IH]; intros k f ui Hin Hok Hk.
  - cbn [app process_chunks]. rewrite chunk_probabilities_eq by assumption.
    rewrite Hbad. reflexivity.
  - cbn [app process_chunks]. rewrite chunk_probabilities_eq by assumption.
    rewrite (Hok win) by now left.
    destruct (Hin win) as [Hx Hy]; [now left|].
    rewrite set_block_tabulate2 by assumption.
    cbn [length] in Hk.
    replace (total <? k + 1) with false by (symmetry; apply Nat.ltb_ge; lia).
    rewrite IH; [| intros; apply Hin; now right | intros; apply Hok; now right | lia].
    f_equal. rewrite <- app_assoc. f_equal.
    unfold progress_events. cbn [length seq flat_map].
    rewrite (Nat.add_1_r (k + 1)). reflexivity.
Qed.

(** X4. On a raster the scaler is fitted for, the run stops at the first
    window of the enumeration that holds a NaN or infinite feature value: the
    page shows the progress reports of exactly the windows before it, then
    the invalid-values error, and no later window is processed. *)
Theorem predict_geotiff_stops_at_first_invalid
    (rasterio_open : list byte -> option Raster)
    (model : Classifier) (scaler : Scaler) (uploaded_file : list byte)
    (chunk_size : nat) (ui : UI) (src : Raster)
    (pre post : list Window) (bad : Window) :
  rasterio_open uploaded_file = Some src ->
  11 <= count src -> count src - 1 = n_features_in scaler -> 1 <= chunk_size ->
  windows (height src) (width src) chunk_size = pre ++ bad :: post ->
  (forall win, In win pre -> invalid_values (window_features src win) = false) ->
  invalid_values (window_features src bad) = true ->
  predict_geotiff rasterio_open model scaler uploaded_file chunk_size ui =
  ((ui ++ [ProgressBar 0 1]) ++
     progress_events (total_chunks (height src) (width src) chunk_size) 0 (length pre) ++
     [StError InvalidValuesMsg],
   None).
Proof.
  intros Hopen Hcount Hn Hc Hsplit Hpre Hbad.
  assert (Hlen : length (windows (height src) (width src) chunk_size)
                 = total_chunks (height src) (width src) chunk_size) by apply length_windows.
  assert (Hpos : 1 <= height src /\ 1 <= width src).
  { assert (Hin : In bad (windows (height src) (width src) chunk_size))
      by (rewrite Hsplit; apply in_elt).
    destruct (window_in_bounds _ _ _ _ Hc Hin) as (_ & _ & _ & ? & ? & ? & ?). lia. }
  destruct (get_rgb_image_eq src ui ltac:(lia) ltac:(lia) ltac:(lia))
    as (lo & hi & _ & _ & Hrgb).
  unfold predict_geotiff. rewrite Hopen.
  replace (count src <? 11) with false by (symmetry; apply Nat.ltb_ge; lia).
  rewrite Hrgb.
  replace (chunk_size =? 0) with false by (symmetry; apply Nat.eqb_neq; lia).
  rewrite zeros_tabulate2.
  rewrite Hsplit, length_app in Hlen. cbn [length] in Hlen.
  rewrite Hsplit.
  rewrite (process_chunks_first_invalid model scaler src (height src) (width src));
    [reflexivity | lia | assumption | assumption | | assumption | lia].
  intros win Hin.
  assert (Hin' : In win (windows (height src) (width src) chunk_size))
    by (rewrite Hsplit; apply in_or_app; now left).
  destruct (window_in_bounds _ _ _ _ Hc Hin') as (_ & _ & _ & _ & _ & Hx & Hy).
  split; assumption.
Qed.

Lemma predict_geotiff_stops_at_first_invalid_witness :
  predict_geotiff (opens_as (with_sample (ramp_raster 1 6 11) 3 0 4 PInf))
    first_feature_classifier unit_scaler [] 2 [] =
  ([ProgressBar 0 1; ProgressBar 1 3; ProgressText 1 3; ProgressBar 2 3; ProgressText 2 3;
    StError InvalidValuesMsg], None).
Proof.
  apply (predict_geotiff_stops_at_first_invalid
           (opens_as (with_sample (ramp_raster 1 6 11) 3 0 4 PInf))
           first_feature_classifier unit_scaler [] 2 []
           (with_sample (ramp_raster 1 6 11) 3 0 4 PInf)
           [mkWindow 0 0 2 1; mkWindow 2 0 2 1] [] (mkWindow 4 0 2 1)).
  - reflexivity.
  - simpl; lia.
  - reflexivity.
  - lia.
  - reflexivity.
  - intros win [<-|[<-|[]]]; reflexivity.
  - reflexivity.
Defined.

(** ** The progress reports *)

Lemma nth_error_progress_events (total k n i : nat) :
  i < n ->
  nth_error (progress_events total k n) (2 * i) = Some (ProgressBar (k + 1 + i) total) /\
  nth_error (progress_events total k n) (2 * i + 1) = Some (ProgressText (k + 1 + i) total).
Proof.
  unfold progress_events. generalize (k + 1) as a. revert i.
  induction n as [|n IH]; intros i a Hi; [lia|].
  cbn [seq flat_map app]. destruct i as [|i].
  - simpl. rewrite Nat.add_0_r. auto.
  - replace (2 * S i) with (S (S (2 * i))) by lia.
    replace (S (S (2 * i)) + 1) with (S (S (2 * i + 1))) by lia.
    cbn [nth_error]. destruct (IH i (S a) ltac:(lia)) as [H1 H2].
    rewrite H1, H2. split; do 2 f_equal; lia.
Qed.

Lemma length_progress_events (total k n : nat) :
  length (progress_events total k n) = 2 * n.
Proof.
  unfold progress_events. generalize (k + 1) as a.
  induction n as [|n IH]; intros a; [reflexivity|].
  cbn [seq flat_map app length]. rewrite IH. lia.
Qed.

Lemma total_chunks_pos (h w c : nat) :
  1 <= h -> 1 <= w -> 1 <= c -> 1 <= total_chunks h w c.
Proof.
  intros Hh Hw Hc. unfold total_chunks.
  assert (0 < (h + c - 1) / c) by (apply origins_spec; lia).
  assert (0 < (w + c - 1) / c) by (apply origins_spec; lia).
  nia.
Qed.

(** X5. On a run that completes, the page gains the empty progress bar, then
    for each window in turn the bar at [k / total_chunks] and the matching
    text, for k = 1, 2, ..., total_chunks, and finally the completion text:
    two reports per window, none above 100 percent, the last at exactly
    100 percent, and no error. *)
Theorem predict_geotiff_progress (rasterio_open : list byte -> option Raster)
    (model : Classifier) (scaler : Scaler) (uploaded_file : list byte)
    (chunk_size : nat) (ui : UI) (src : Raster) :
  rasterio_open uploaded_file = Some src ->
  11 <= count src -> count src - 1 = n_features_in scaler ->
  1 <= height src -> 1 <= width src -> 1 <= chunk_size ->
  (forall b r col, 1 <= b < count src -> r < height src -> col < width src ->
     is_finite (sample_at src b r col) = true) ->
  let total := total_chunks (height src) (width src) chunk_size in
  exists reports,
    fst (predict_geotiff rasterio_open model scaler uploaded_file chunk_size ui) =
      (ui ++ [ProgressBar 0 1]) ++ reports ++ [ProgressComplete] /\
    length reports = 2 * total /\
    1 <= total /\
    (forall i, i < total ->
       nth_error reports (2 * i) = Some (ProgressBar (i + 1) total) /\
       nth_error reports (2 * i + 1) = Some (ProgressText (i + 1) total)) /\
    nth_error reports (2 * (total - 1)) = Some (ProgressBar total total).
Proof.
  intros Hopen Hcount Hn Hh Hw Hc Hfin total.
  destruct (predict_geotiff_complete rasterio_open model scaler uploaded_file
              chunk_size ui src Hopen Hcount Hn Hh Hw Hc Hfin) as [rgb [_ Hrun]].
  pose proof (total_chunks_pos (height src) (width src) chunk_size Hh Hw Hc) as Hpos.
  fold total in Hrun, Hpos.
  exists (progress_events total 0 total). rewrite Hrun. cbn [fst].
  split; [reflexivity|]. split; [apply length_progress_events|].
  split; [assumption|]. split.
  - intros i Hi. destruct (nth_error_progress_events total 0 total i Hi) as [H1 H2].
    rewrite H1, H2. split; do 2 f_equal; lia.
  - destruct (nth_error_progress_events total 0 total (total - 1) ltac:(lia)) as [H1 _].
    rewrite H1. do 2 f_equal. lia.
Qed.

Lemma predict_geotiff_progress_witness :
  exists reports,
    fst (predict_geotiff (opens_as (ramp_raster 3 5 11)) first_feature_classifier
           unit_scaler [] 2 []) =
      ([] ++ [ProgressBar 0 1]) ++ reports ++ [ProgressComplete] /\
    length reports = 2 * total_chunks 3 5 2.
Proof.
  destruct (predict_geotiff_progress (opens_as (ramp_raster 3 5 11))
              first_feature_classifier unit_scaler [] 2 [] (ramp_raster 3 5 11))
    as (reports & Hrun & Hlen & _).
  - reflexivity.
  - simpl; lia.
  - reflexivity.
  - simpl; lia.
  - simpl; lia.
  - lia.
  - intros; apply ramp_raster_finite.
  - exists reports. split; [exact Hrun | exact Hlen].
Defined.

(** ** The range of the composite image *)

Ltac sample_cases :=
  unfold Rlt_bool, Rle_bool, Req_bool in *;
  repeat (simpl in *; unfold Rlt_bool, Rle_bool, Req_bool in *;
          match goal with
          | |- context [Rlt_dec ?a ?b] => destruct (Rlt_dec a b)
          | |- context [Rle_dec ?a ?b] => destruct (Rle_dec a b)
          | |- context [Req_dec_T ?a ?b] => destruct (Req_dec_T a b)
          | H : context [Rlt_dec ?a ?b] |- _ => destruct (Rlt_dec a b)
          | H : context [Rle_dec ?a ?b] |- _ => destruct (Rle_dec a b)
          end);
  try discriminate; try reflexivity; try lra.


Lemma sample_leb_trans (a b c : sample) :
  sample_leb a b = true -> sample_leb b c = true -> sample_leb a c = true.
Proof. destruct a, b, c; simpl; intros H1 H2; sample_cases. Qed.













(* ------------------------------------------------------------------------- *)
(** * Further properties of the derived views *)
(* ------------------------------------------------------------------------- *)

(** ** The overlay *)

Lemma map_combine_keep {A B : Type} (F : A * B -> A) (l : list A) (l' : list B) :
  length l = length l' ->
  (forall a b, In (a, b) (combine l l') -> F (a, b) = a) ->
  map F (combine l l') = l.
Proof.
  revert l'. induction l as [|a l IH]; intros [|b l'] Hlen HF; try discriminate.
  - reflexivity.
  - cbn [combine map]. f_equal.
    + apply HF. now left.
    + apply IH; [simpl in Hlen; lia|]. intros a' b' Hin. apply HF. now right.
Qed.

Lemma blend_transparent (px : list sample) :
  length px = 3 -> blend 0 px = px.
Proof.
  destruct px as [|a [|b [|c [|d px]]]]; try discriminate. intros _.
  assert (Hone : forall v, sample_add (sample_mul (Fin (1 - 0)) v)
                                      (sample_mul (Fin 0) (Fin 1)) = v).
  { intros [x| | |]; simpl.
    - f_equal. lra.
    - unfold inf_of_sign. rewrite Rlt_bool_true by lra. reflexivity.
    - unfold inf_of_sign. rewrite Rlt_bool_false, Rlt_bool_true by lra. reflexivity.
    - reflexivity. }
  assert (Hzero : forall v, sample_add (sample_mul (Fin (1 - 0)) v)
                                       (sample_mul (Fin 0) (Fin 0)) = v).
  { intros [x| | |]; simpl.
    - f_equal. lra.
    - unfold inf_of_sign. rewrite Rlt_bool_true by lra. reflexivity.
    - unfold inf_of_sign. rewrite Rlt_bool_false, Rlt_bool_true by lra. reflexivity.
    - reflexivity. }
  unfold blend, highlight. cbn [combine map fst snd].
  now rewrite Hone, !Hzero.
Qed.

Lemma nth_error_Some_lt {A : Type} (l : list A) (n : nat) (x : A) :
  nth_error l n = Some x -> n < length l.
Proof. intros H. apply nth_error_Some. congruence. Qed.

(** Blending leaves the image as it is when it changes no selected pixel. *)
Lemma blend_masked_keep (alpha : R) (h w : nat) (img : Array3) (msk : list (list bool)) :
  has_shape h w img -> has_shape h w msk ->
  (forall r c px, get2 img r c = Some px -> get2 msk r c = Some true ->
     blend alpha px = px) ->
  blend_masked alpha img msk = img.
Proof.
  intros [Hli Hri] [Hlm Hrm] Hkeep. unfold blend_masked.
  rewrite Forall_forall in Hri, Hrm.
  apply nth_error_ext. intros r. rewrite nth_error_map.
  destruct (nth_error img r) as [irow|] eqn:Hi.
  - destruct (nth_error msk r) as [mrow|] eqn:Hm;
      [|apply nth_error_None in Hm; apply nth_error_Some_lt in Hi; lia].
    rewrite (nth_error_combine_some img msk r irow mrow Hi Hm).
    cbn [option_map fst snd]. f_equal.
    assert (Hwi : length irow = w) by (apply Hri; eapply nth_error_In; eauto).
    assert (Hwm : length mrow = w) by (apply Hrm; eapply nth_error_In; eauto).
    apply nth_error_ext. intros c. rewrite nth_error_map.
    destruct (nth_error irow c) as [px|] eqn:Hpx.
    + destruct (nth_error mrow c) as [b|] eqn:Hb;
        [|apply nth_error_None in Hb; apply nth_error_Some_lt in Hpx; lia].
      rewrite (nth_error_combine_some irow mrow c px b Hpx Hb).
      cbn [option_map fst snd]. f_equal. destruct b; [|reflexivity].
      apply (Hkeep r c); unfold get2; [now rewrite Hi | now rewrite Hm].
    + apply nth_error_None in Hpx.
      replace (nth_error (combine irow mrow) c) with (@None (list sample * bool));
        [reflexivity|].
      symmetry. apply nth_error_None. rewrite length_combine. lia.
  - apply nth_error_None in Hi.
    replace (nth_error (combine img msk) r) with (@None (list (list sample) * list bool));
      [reflexivity|].
    symmetry. apply nth_error_None. rewrite length_combine. lia.
Qed.

(** The overlay of arrays of one shape, as an equation. *)
Lemma overlay_eq (hp : heap) (rgb_image probability_predictions : loc)
    (img : Array3) (probs : Array2) (h w : nat) (threshold alpha : R) :
  heap_get hp rgb_image = Some (Image img) ->
  heap_get hp probability_predictions = Some (Grid probs) ->
  has_shape h w img ->
  (forall row px, In row img -> In px row -> length px = 3) ->
  has_shape h w probs ->
  overlay hp rgb_image probability_predictions threshold alpha =
  Some (hp ++ [Image (blend_masked alpha img (mask probs threshold))], length hp).
Proof.
  intros Hrgb Hprob Hshape Hch Hpshape.
  pose proof (has_shape_mask h w probs threshold Hpshape) as Hmask.
  unfold overlay. rewrite Hrgb, Hprob. cbn [heap_alloc].
  pose proof (heap_get_alloc hp (Image img)) as Hnew. cbn [heap_alloc fst snd] in Hnew.
  rewrite Hnew, (overlay_shapes_ok_true h w img _ Hshape Hmask Hch).
  now rewrite heap_set_last.
Qed.

Lemma get2_in {A : Type} (m : list (list A)) (r c : nat) (x : A) :
  get2 m r c = Some x -> exists row, In row m /\ In x row.
Proof.
  unfold get2. destruct (nth_error m r) as [row|] eqn:Hr; [|discriminate].
  intros Hc. exists row. split; eapply nth_error_In; eauto.
Qed.

(** X7. With opacity 0, or when no pixel's probability reaches the threshold,
    the overlay is a copy of the composite image, value for value. *)
Theorem overlay_unchanged (hp : heap) (rgb_image probability_predictions : loc)
    (img : Array3) (probs : Array2) (h w : nat) (threshold alpha : R) :
  heap_get hp rgb_image = Some (Image img) ->
  heap_get hp probability_predictions = Some (Grid probs) ->
  has_shape h w img ->
  (forall row px, In row img -> In px row -> length px = 3) ->
  has_shape h w probs ->
  alpha = 0%R \/
  (forall r c p, get2 probs r c = Some p -> sample_geb p (Fin threshold) = false) ->
  exists hp',
    overlay hp rgb_image probability_predictions threshold alpha =
      Some (hp', length hp) /\
    heap_get hp' (length hp) = Some (Image img).
Proof.
  intros Hrgb Hprob Hshape Hch Hpshape Hcase.
  rewrite (overlay_eq hp rgb_image probability_predictions img probs h w threshold alpha)
    by assumption.
  eexists. split; [reflexivity|].
  unfold heap_get. rewrite nth_error_app2 by lia. rewrite Nat.sub_diag. cbn [nth_error].
  do 2 f_equal.
  apply (blend_masked_keep alpha h w);
    [assumption | now apply has_shape_mask |].
  intros r c px Hpx Hm. destruct Hcase as [->|Hlow].
  - apply blend_transparent. destruct (get2_in img r c px Hpx) as [row [Hrow Hin]].
    now apply (Hch row).
  - exfalso. unfold mask in Hm. rewrite get2_map_map in Hm.
    destruct (get2 probs r c) as [p|] eqn:Hp; [|discriminate].
    cbn [option_map] in Hm. rewrite (Hlow r c p Hp) in Hm. discriminate.
Qed.

Lemma overlay_unchanged_witness :
  exists hp',
    overlay [Image [[[Fin (1 / 4); Fin (1 / 2); Fin 1]; [Fin 0; NaN; Fin 0]]];
             Grid [[Fin (9 / 10); Fin (1 / 10)]]] 0 1 (1 / 2) 0 = Some (hp', 2) /\
    heap_get hp' 2 = Some (Image [[[Fin (1 / 4); Fin (1 / 2); Fin 1]; [Fin 0; NaN; Fin 0]]]).
Proof.
  apply (overlay_unchanged
           [Image [[[Fin (1 / 4); Fin (1 / 2); Fin 1]; [Fin 0; NaN; Fin 0]]];
            Grid [[Fin (9 / 10); Fin (1 / 10)]]] 0 1
           [[[Fin (1 / 4); Fin (1 / 2); Fin 1]; [Fin 0; NaN; Fin 0]]]
           [[Fin (9 / 10); Fin (1 / 10)]] 1 2 (1 / 2) 0).
  - reflexivity.
  - reflexivity.
  - split; [reflexivity | repeat constructor].
  - intros row px [<-|[]] [<-|[<-|[]]]; reflexivity.
  - split; [reflexivity | repeat constructor].
  - left. reflexivity.
Defined.

Lemma blend_in_unit (alpha : R) (px : list sample) :
  (0 <= alpha <= 1)%R -> Forall in_unit px -> Forall in_unit (blend alpha px).
Proof.
  intros Ha Hpx. unfold blend. apply Forall_forall. intros v Hv.
  apply in_map_iff in Hv. destruct Hv as [[u hl] [<- Hin]]. cbn [fst snd].
  assert (Hu : in_unit u).
  { rewrite Forall_forall in Hpx. apply Hpx. eapply in_combine_l; eauto. }
  assert (Hhl : hl = Fin 1 \/ hl = Fin 0).
  { apply in_combine_r in Hin. unfold highlight in Hin.
    destruct Hin as [<-|[<-|[<-|[]]]]; auto. }
  destruct u as [x| | |]; try contradiction. cbn [in_unit] in Hu.
  destruct Hhl as [->| ->]; simpl; nra.
Qed.

(** X8. When every value of the composite image lies in [[0, 1]] and the
    opacity lies in [[0, 1]], every value of the overlay lies in [[0, 1]]:
    blending keeps the image displayable. *)
Theorem overlay_in_unit (hp : heap) (rgb_image probability_predictions : loc)
    (img : Array3) (probs : Array2) (h w : nat) (threshold alpha : R) :
  heap_get hp rgb_image = Some (Image img) ->
  heap_get hp probability_predictions = Some (Grid probs) ->
  has_shape h w img ->
  (forall row px, In row img -> In px row -> length px = 3) ->
  has_shape h w probs ->
  (forall row px, In row img -> In px row -> Forall in_unit px) ->
  (0 <= alpha <= 1)%R ->
  exists hp' result,
    overlay hp rgb_image probability_predictions threshold alpha =
      Some (hp', length hp) /\
    heap_get hp' (length hp) = Some (Image result) /\
    forall r c px, get2 result r c = Some px -> Forall in_unit px.
Proof.
  intros Hrgb Hprob Hshape Hch Hpshape Hunit Ha.
  rewrite (overlay_eq hp rgb_image probability_predictions img probs h w threshold alpha)
    by assumption.
  eexists. eexists. split; [reflexivity|]. split.
  - unfold heap_get. rewrite nth_error_app2 by lia. now rewrite Nat.sub_diag.
  - intros r c px Hpx. unfold get2, blend_masked in Hpx.
    rewrite nth_error_map in Hpx.
    destruct (nth_error (combine img (mask probs threshold)) r) as [[irow mrow]|] eqn:Hr;
      [|discriminate].
    cbn [option_map fst snd] in Hpx. rewrite nth_error_map in Hpx.
    destruct (nth_error (combine irow mrow) c) as [[p b]|] eqn:Hc; [|discriminate].
    cbn [option_map fst snd] in Hpx.
    assert (Hp : Forall in_unit p).
    { apply (Hunit irow).
      - apply nth_error_In in Hr. eapply in_combine_l; eauto.
      - apply nth_error_In in Hc. eapply in_combine_l; eauto. }
    assert (Hsome : forall (A : Type) (a a' : A), Some a = Some a' -> a = a')
      by (intros A a a' H; congruence).
    apply Hsome in Hpx. subst px.
    destruct b; [now apply blend_in_unit | assumption].
Qed.

Lemma overlay_in_unit_witness :
  exists hp' result,
    overlay [Image [[[Fin (1 / 4); Fin (1 / 2); Fin 1]; [Fin 0; Fin 0; Fin 0]]];
             Grid [[Fin (9 / 10); Fin (1 / 10)]]] 0 1 (1 / 2) (3 / 4) = Some (hp', 2) /\
    heap_get hp' 2 = Some (Image result).
Proof.
  destruct (overlay_in_unit
              [Image [[[Fin (1 / 4); Fin (1 / 2); Fin 1]; [Fin 0; Fin 0; Fin 0]]];
               Grid [[Fin (9 / 10); Fin (1 / 10)]]] 0 1
              [[[Fin (1 / 4); Fin (1 / 2); Fin 1]; [Fin 0; Fin 0; Fin 0]]]
              [[Fin (9 / 10); Fin (1 / 10)]] 1 2 (1 / 2) (3 / 4))
    as (hp' & result & Hrun & Hget & _).
  - reflexivity.
  - reflexivity.
  - split; [reflexivity | repeat constructor].
  - intros row px [<-|[]] [<-|[<-|[]]]; reflexivity.
  - split; [reflexivity | repeat constructor].
  - intros row px [<-|[]] [<-|[<-|[]]];
      repeat (apply Forall_cons; [simpl; lra|]); apply Forall_nil.
  - lra.
  - exists hp', result. split; assumption.
Defined.

(** ** The statistics *)


Lemma length_filter_le {A : Type} (P Q : A -> bool) (l : list A) :
  (forall x, In x l -> P x = true -> Q x = true) ->
  length (filter P l) <= length (filter Q l).
Proof.
  induction l as [|a l IH]; intros H; [reflexivity|].
  assert (IH' : length (filter P l) <= length (filter Q l))
    by (apply IH; intros x Hx; apply H; now right).
  cbn [filter]. destruct (P a) eqn:EP.
  - rewrite (H a (or_introl eq_refl) EP). simpl. lia.
  - destruct (Q a); simpl; lia.
Qed.

Lemma risk_counts (probability_predictions : Array2) (threshold : R) :
  high_risk_count (risk_statistics probability_predictions threshold) =
    length (filter (fun p => sample_geb p (Fin threshold)) (concat probability_predictions)) /\
  low_risk_count (risk_statistics probability_predictions threshold) =
    length (filter (fun p => negb (sample_geb p (Fin threshold)))
                   (concat probability_predictions)).
Proof.
  unfold risk_statistics. cbn [high_risk_count low_risk_count].
  unfold count_equal, binary_predictions. rewrite <- concat_map.
  destruct (count_binary (fun p => sample_geb p (Fin threshold))
              (concat probability_predictions)) as (H1 & H0 & _).
  now rewrite H1, H0.
Qed.

(** X9. Raising the threshold never adds a high-risk pixel and never removes
    a low-risk one: the high-risk count is antitone and the low-risk count
    monotone in the threshold. *)
Theorem risk_statistics_monotone (probability_predictions : Array2) (t1 t2 : R) :
  (t1 <= t2)%R ->
  high_risk_count (risk_statistics probability_predictions t2) <=
    high_risk_count (risk_statistics probability_predictions t1) /\
  low_risk_count (risk_statistics probability_predictions t1) <=
    low_risk_count (risk_statistics probability_predictions t2).
Proof.
  intros Ht.
  destruct (risk_counts probability_predictions t1) as [-> ->].
  destruct (risk_counts probability_predictions t2) as [-> ->].
  assert (Hstep : forall p, sample_geb p (Fin t2) = true -> sample_geb p (Fin t1) = true).
  { intros p Hp. unfold sample_geb in *.
    apply sample_leb_trans with (b := Fin t2); [|assumption].
    simpl. now apply Rle_bool_true. }
  split; apply length_filter_le; intros p _ Hp.
  - now apply Hstep.
  - destruct (sample_geb p (Fin t2)) eqn:E; [|reflexivity].
    rewrite (Hstep p E) in Hp. discriminate.
Qed.

Lemma risk_statistics_monotone_witness :
  high_risk_count (risk_statistics [[Fin (3 / 10); Fin (7 / 10)]] (4 / 5)) <=
  high_risk_count (risk_statistics [[Fin (3 / 10); Fin (7 / 10)]] (1 / 2)).
Proof.
  apply (risk_statistics_monotone [[Fin (3 / 10); Fin (7 / 10)]] (1 / 2) (4 / 5)). lra.
Defined.

(** X10. The statistics tab and the overlay tab select the same pixels: the
    high-risk count is the number of pixels the mask of the overlay marks,
    and the low-risk count the number it leaves. *)
Theorem risk_statistics_match_mask (probability_predictions : Array2) (threshold : R) :
  high_risk_count (risk_statistics probability_predictions threshold) =
    length (filter (fun b : bool => b) (concat (mask probability_predictions threshold))) /\
  low_risk_count (risk_statistics probability_predictions threshold) =
    length (filter negb (concat (mask probability_predictions threshold))).
Proof.
  destruct (risk_counts probability_predictions threshold) as [-> ->].
  unfold mask. rewrite <- concat_map.
  generalize (concat probability_predictions) as l.
  induction l as [|p l [IH1 IH2]]; [split; reflexivity|].
  cbn [map filter]. destruct (sample_geb p (Fin threshold)); cbn [negb length];
    rewrite ?IH1, ?IH2; split; reflexivity.
Qed.

(* ------------------------------------------------------------------------- *)
(** * The exports *)
(* ------------------------------------------------------------------------- *)

(** ** The CSV export *)

Lemma nth_error_concat_shape {A : Type} (h w : nat) (m : list (list A)) (r c : nat) :
  has_shape h w m -> c < w ->
  nth_error (concat m) (r * w + c) = get2 m r c.
Proof.
  intros [Hlen Hrows] Hc. clear Hlen. revert r.
  induction m as [|row m IH]; intros r.
  - unfold get2. cbn [concat]. destruct r; destruct (_ * w + c); reflexivity.
  - inversion Hrows as [|? ? Hrow Hrest]; subst. cbn [concat]. destruct r as [|r].
    + cbn [Nat.mul Nat.add]. unfold get2. cbn [nth_error].
      apply nth_error_app1. lia.
    + rewrite nth_error_app2 by (simpl; lia).
      replace (S r * length row + c - length row) with (r * length row + c) by (simpl; lia).
      rewrite IH by assumption. reflexivity.
Qed.

(** X12. The CSV of a surface of shape (height, width) has the header line
    [probability] followed by exactly height * width data lines, and the line
    of pixel [(r, c)] is line [1 + r * width + c]: row-major order, no pixel
    left out or repeated. *)
Theorem predictions_csv_rows (format_float : sample -> String.string)
    (probability_predictions : Array2) (h w : nat) :
  has_shape h w probability_predictions ->
  length (predictions_csv format_float probability_predictions) = 1 + h * w /\
  nth_error (predictions_csv format_float probability_predictions) 0
    = Some "probability"%string /\
  (forall r c p, get2 probability_predictions r c = Some p ->
     r < h /\ c < w /\
     nth_error (predictions_csv format_float probability_predictions) (1 + r * w + c)
       = Some (format_float p)) /\
  (forall k, k < h * w ->
     exists p, get2 probability_predictions (k / w) (k mod w) = Some p /\
               nth_error (predictions_csv format_float probability_predictions) (1 + k)
                 = Some (format_float p)).
Proof.
  intros Hshape. unfold predictions_csv.
  assert (Hget : forall r c p, get2 probability_predictions r c = Some p -> r < h /\ c < w).
  { intros r c p Hp. destruct Hshape as [Hlen Hrows]. unfold get2 in Hp.
    destruct (nth_error probability_predictions r) as [row|] eqn:Hr; [|discriminate].
    rewrite Forall_forall in Hrows.
    rewrite <- (Hrows row) by (eapply nth_error_In; eauto).
    split; [rewrite <- Hlen|]; eapply nth_error_Some_lt; eauto. }
  split; [cbn [length]; now rewrite length_map, (length_concat_shape h w)|].
  split; [reflexivity|]. split.
  - intros r c p Hp. destruct (Hget r c p Hp) as [Hr Hc].
    split; [assumption|]. split; [assumption|].
    cbn [Nat.add nth_error]. rewrite nth_error_map.
    rewrite (nth_error_concat_shape h w) by assumption. now rewrite Hp.
  - intros k Hk. assert (Hw : w <> 0) by (intros ->; lia).
    assert (Hmod : k mod w < w) by now apply Nat.mod_upper_bound.
    destruct (nth_error (concat probability_predictions) k) as [p|] eqn:Hp.
    + exists p. cbn [Nat.add nth_error]. rewrite nth_error_map, Hp. split; [|reflexivity].
      rewrite <- (nth_error_concat_shape h w) by assumption.
      rewrite <- Hp. f_equal. rewrite (Nat.div_mod_eq k w) at 3. lia.
    + apply nth_error_None in Hp. rewrite (length_concat_shape h w) in Hp by assumption. lia.
Qed.

Lemma predictions_csv_rows_witness :
  length (predictions_csv (fun _ => "0.5"%string) (tabulate2 512 512 (fun _ _ => Fin (1 / 2))))
  = 1 + 512 * 512.
Proof.
  apply (predictions_csv_rows (fun _ => "0.5"%string)
           (tabulate2 512 512 (fun _ _ => Fin (1 / 2))) 512 512).
  apply has_shape_tabulate2.
Defined.

(** ** The GeoTIFF export *)

Lemma shape_is_spec (h w : nat) (a : Array2) :
  shape_is h w a = true <-> has_shape h w a.
Proof.
  unfold shape_is, has_shape.
  rewrite andb_true_iff, Nat.eqb_eq, forallb_forall, Forall_forall.
  split; intros [H1 H2]; (split; [assumption|]); intros row Hrow;
    specialize (H2 row Hrow); now apply Nat.eqb_eq.
Qed.

Lemma tabulate_nth {A : Type} (l : list A) (d : A) :
  tabulate (length l) (fun c => nth c l d) = l.
Proof.
  induction l as [|a l IH]; [reflexivity|].
  cbn [length]. rewrite tabulate_S. cbn [nth]. now rewrite IH.
Qed.

Lemma tabulate2_nth_shape (h w : nat) (a : Array2) :
  has_shape h w a ->
  tabulate2 h w (fun r c => nth c (nth r a []) NaN) = a.
Proof.
  intros [Hlen Hrows]. subst h. unfold tabulate2.
  rewrite <- (tabulate_nth a []) at 2. apply tabulate_ext. intros r Hr.
  rewrite Forall_forall in Hrows.
  rewrite <- (Hrows (nth r a [])) by now apply nth_In.
  apply tabulate_nth.
Qed.

(** X14. Exporting what a completed run returns: the written dataset has the
    height, width, crs and transform of the uploaded raster and one band,
    which holds each pixel's probability; uploaded again, it is turned down
    by the band-count check. *)
Theorem export_of_run (rasterio_open : list byte -> option Raster)
    (model : Classifier) (scaler : Scaler) (uploaded_file : list byte)
    (chunk_size : nat) (ui : UI) (src : Raster) :
  rasterio_open uploaded_file = Some src ->
  11 <= count src -> count src - 1 = n_features_in scaler ->
  1 <= height src -> 1 <= width src -> 1 <= chunk_size ->
  (forall b r col, 1 <= b < count src -> r < height src -> col < width src ->
     is_finite (sample_at src b r col) = true) ->
  exists ui' rgb_image probability_predictions run_meta dst,
    predict_geotiff rasterio_open model scaler uploaded_file chunk_size ui =
      (ui', Some (rgb_image, probability_predictions, run_meta)) /\
    write_predictions run_meta probability_predictions = Some dst /\
    height dst = height src /\ width dst = width src /\
    crs dst = crs src /\ transform dst = transform src /\ count dst = 1 /\
    read_band dst 1 = Some probability_predictions /\
    (forall r col, r < height src -> col < width src ->
       sample_at dst 0 r col = pixel_probability model scaler src r col) /\
    (forall decoder again ui2, decoder again = Some dst ->
       predict_geotiff decoder model scaler again chunk_size ui2 =
       (ui2 ++ [StError (BandCountMsg 1)], None)).
Proof.
  intros Hopen Hcount Hn Hh Hw Hc Hfin.
  destruct (predict_geotiff_complete rasterio_open model scaler uploaded_file
              chunk_size ui src Hopen Hcount Hn Hh Hw Hc Hfin) as [rgb [_ Hrun]].
  assert (Hshape : shape_is (height src) (width src)
                     (tabulate2 (height src) (width src)
                        (pixel_probability model scaler src)) = true)
    by (apply shape_is_spec, has_shape_tabulate2).
  eexists. exists rgb. eexists. exists (meta src). eexists.
  split; [exact Hrun|]. unfold write_predictions. cbn [meta meta_height meta_width].
  rewrite Hshape. split; [reflexivity|].
  cbn [height width crs transform count sample_at meta_crs meta_transform Nat.eqb].
  repeat split.
  - unfold read_band. cbn [count height width sample_at Nat.leb andb Nat.sub Nat.eqb].
    now rewrite tabulate2_nth_shape by apply has_shape_tabulate2.
  - intros r col Hr Hcol. unfold tabulate2.
    rewrite (nth_tabulate (height src) _ r [] Hr). now apply nth_tabulate.
  - intros decoder again ui2 Hdec.
    rewrite (predict_geotiff_few_bands decoder model scaler again chunk_size ui2 _ Hdec);
      [reflexivity | simpl; lia].
Qed.

Lemma export_of_run_witness :
  exists ui' rgb_image probability_predictions run_meta dst,
    predict_geotiff (opens_as (ramp_raster 3 5 11)) first_feature_classifier unit_scaler
                    [] 2 [] =
      (ui', Some (rgb_image, probability_predictions, run_meta)) /\
    write_predictions run_meta probability_predictions = Some dst /\
    height dst = 3 /\ width dst = 5.
Proof.
  destruct (export_of_run (opens_as (ramp_raster 3 5 11)) first_feature_classifier
              unit_scaler [] 2 [] (ramp_raster 3 5 11))
    as (ui' & rgb & surf & mt & dst & Hrun & Hwrite & Hh & Hw & _).
  - reflexivity.
  - simpl; lia.
  - reflexivity.
  - simpl; lia.
  - simpl; lia.
  - lia.
  - intros; apply ramp_raster_finite.
  - exists ui', rgb, surf, mt, dst. auto.
Defined.

(* ------------------------------------------------------------------------- *)
(** * The composite image in float32 *)
(* ------------------------------------------------------------------------- *)





(** Without rounding the float32 compositor is the exact one. *)
Lemma get_rgb_image_float32_exact (src : Raster) (ui : UI) :
  get_rgb_image_float32 Fin src ui = get_rgb_image src ui.
Proof.
  assert (Hid : forall v, astype_float32 Fin v = v) by (intros [x| | |]; reflexivity).
  assert (Hmap : forall a : Array2, map (map (astype_float32 Fin)) a = a).
  { intros a. rewrite (map_ext _ (fun row => row)); [apply map_id|].
    intros row. rewrite (map_ext _ (fun v => v)) by exact Hid. apply map_id. }
  unfold get_rgb_image_float32, get_rgb_image.
  destruct (read_band src 7) as [red|], (read_band src 4) as [green|],
    (read_band src 3) as [blue|]; try reflexivity.
  rewrite !Hmap.
  destruct (nanmin (flatten3 (dstack red green blue))) as [lo|],
    (nanmax (flatten3 (dstack red green blue))) as [hi|]; try reflexivity.
  destruct (sample_gtb hi lo); [|reflexivity].
  do 2 f_equal. unfold map3. apply map_ext. intros row. apply map_ext. intros px.
  apply map_ext. intros v. unfold div32, sub32. now rewrite !Hid.
Qed.









